(** * The event-loop and cross-thread coordination core of walk

    A shallow embedding of the parts of [application.go] and [form.go] that
    make up the scheduler core: the once-guard of the singleton, the
    fault-isolation boundary, the cross-thread bridge ([Synchronize],
    [synchronizeLayout] and their drains), [Exit], the top-level and modal
    message loops with their pre-translate hooks, and the hand-off of layout
    results to the owner thread.

    Go code that can panic, block forever or return is modelled by a small
    state monad over an explicit outcome type; deferred calls are modelled by
    [defer], which runs on return and on panic but not when the goroutine
    blocks.

    Conventions of the model:
    - Go's [int] is 64 bits wide, [int32] and [uint32] are 32 bits wide; the
      wrap-around of each is written out where the code computes with them.
    - A section guarded by [app.mutex] is one atomic step; the interleavings
      of goroutines are taken between such steps.
    - Code outside the core is a parameter.  Calls that cannot re-enter the
      core act on the external state only; calls that run window procedures
      act on the whole state of the core.
    - [GetMessage] returning -1 (an invalid argument, which the loop never
      passes) is left out.
    - Loops that run until a message says otherwise carry a bound on the
      number of passes; hitting the bound is its own outcome, distinct from
      returning, panicking and blocking. *)

From Stdlib Require Import ZArith Lia List String DecimalString.
From stdpp Require Import base option list gmap.

Local Open Scope Z_scope.

(** ** Go values that can be thrown by [panic] *)

(** The dynamic type of a panic value decides what
    [redirectedPanicError.Error] and [Unwrap] do with it, so the model keeps
    exactly that: a string, a value implementing [error], a value implementing
    only [fmt.Stringer], any other value, and the [*redirectedPanicError]
    itself (which implements [error]). *)
Inductive any : Type :=
| AString (s : string)
| AError (msg : string)
| AStringer (str : string)
| AOpaque (tag : nat)
| ARedirected (inner : any) (stack : string).

(** ** Outcomes and the Go monad *)

Inductive result (A : Type) : Type :=
| Ret (a : A)        (* the call returned *)
| Panic (v : any)    (* the call is unwinding with panic value [v] *)
| Block              (* the goroutine is parked forever *)
| OutOfFuel.         (* the model's loop bound was reached *)
Arguments Ret {A} a.
Arguments Panic {A} v.
Arguments Block {A}.
Arguments OutOfFuel {A}.

Definition Go (W A : Type) : Type := W -> result A * W.

Definition ret {W A} (a : A) : Go W A := fun w => (Ret a, w).

Definition bind {W A B} (m : Go W A) (k : A -> Go W B) : Go W B :=
  fun w =>
    match m w with
    | (Ret a, w') => k a w'
    | (Panic v, w') => (Panic v, w')
    | (Block, w') => (Block, w')
    | (OutOfFuel, w') => (OutOfFuel, w')
    end.

Definition panic {W A} (v : any) : Go W A := fun w => (Panic v, w).
Definition block {W A} : Go W A := fun w => (Block, w).
Definition get {W} : Go W W := fun w => (Ret w, w).
Definition gets {W A} (f : W -> A) : Go W A := fun w => (Ret (f w), w).
Definition modify {W} (f : W -> W) : Go W unit := fun w => (Ret tt, f w).

Notation "x <- m ;; k" := (bind m (fun x => k))
  (at level 100, m at next level, right associativity).
Notation "m ;;; k" := (bind m (fun _ => k))
  (at level 100, right associativity).

(** [defer d body]: [body] runs, then the deferred call [d] runs whether
    [body] returned or panicked.  A panic raised by [d] replaces the one in
    flight.  Nothing runs after the goroutine blocked. *)
Definition defer {W A} (d : Go W unit) (body : Go W A) : Go W A :=
  fun w =>
    match body w with
    | (Ret a, w') =>
        match d w' with
        | (Ret _, w'') => (Ret a, w'')
        | (Panic v, w'') => (Panic v, w'')
        | (Block, w'') => (Block, w'')
        | (OutOfFuel, w'') => (OutOfFuel, w'')
        end
    | (Panic v, w') =>
        match d w' with
        | (Ret _, w'') => (Panic v, w'')
        | (Panic v', w'') => (Panic v', w'')
        | (Block, w'') => (Block, w'')
        | (OutOfFuel, w'') => (OutOfFuel, w'')
        end
    | (Block, w') => (Block, w')
    | (OutOfFuel, w') => (OutOfFuel, w')
    end.

(** An exit is a return or a panic that leaves the function. *)
Definition exits {A} (r : result A) : bool :=
  match r with
  | Ret _ | Panic _ => true
  | Block | OutOfFuel => false
  end.

(** [deferRecover d zero body]: the deferred call [d] starts with [recover()]
    and is handed what [recover] returns there: the panic value in flight, or
    [None] when [body] returned.  When [d] returns after recovering, the
    function returns normally with its result values as they stand, which for
    an unnamed result is the zero value [zero]. *)
Definition deferRecover {W A} (d : option any -> Go W unit) (zero : A) (body : Go W A) : Go W A :=
  fun w =>
    match body w with
    | (Ret a, w') =>
        match d None w' with
        | (Ret _, w'') => (Ret a, w'')
        | (Panic v, w'') => (Panic v, w'')
        | (Block, w'') => (Block, w'')
        | (OutOfFuel, w'') => (OutOfFuel, w'')
        end
    | (Panic v, w') =>
        match d (Some v) w' with
        | (Ret _, w'') => (Ret zero, w'')
        | (Panic v', w'') => (Panic v', w'')
        | (Block, w'') => (Block, w'')
        | (OutOfFuel, w'') => (OutOfFuel, w'')
        end
    | (Block, w') => (Block, w')
    | (OutOfFuel, w') => (OutOfFuel, w')
    end.

(** ** Win32 data *)

Definition HWND : Type := Z.

Record MSG : Type := mkMSG {
  HWnd : HWND;
  Message : Z;
  WParam : Z;
  LParam : Z
}.

Definition WM_NULL : Z := 0.
Definition WM_QUIT : Z := 0x12.
Definition WM_APP : Z := 0x8000.
Definition firstRegisteredMessage : Z := 0xC000.

(** [int32(x)] for a Go [int]: two's complement wrap-around to 32 bits. *)
Definition int32 (x : Z) : Z := (x + 2 ^ 31) mod 2 ^ 32 - 2 ^ 31.

(** Arithmetic on Go's [int] (64 bits on the platforms walk is built for)
    and on [uint32] wraps around. *)
Definition wrapInt (x : Z) : Z := (x + 2 ^ 63) mod 2 ^ 64 - 2 ^ 63.
Definition wrapUint32 (x : Z) : Z := x mod 2 ^ 32.

(** The values of an [int]. *)
Definition validInt (x : Z) : Prop := - 2 ^ 63 <= x < 2 ^ 63.


(** ** Closures and handlers *)

(** The [func()] values the core stores and calls later.  [postQuitMsg] is the
    closure built by [Exit]; every other closure belongs to the application
    and is known by an identifier, its body being part of the environment. *)
Inductive closure : Type :=
| PostQuitMsg (exitCode : Z)
| UserFunc (id : nat).

(** A Go [func()] value; [None] is the nil func. *)
Definition func : Type := option closure.

(** The identity of a registered [PreTranslateHandler]. *)
Definition Handler : Type := nat.

(** A walk [Window] as [windowFromHandle] returns it, with the optional
    interfaces its dynamic type satisfies. *)
Record Window : Type := mkWindow {
  window_id : nat;
  asPreTranslateHandler : option Handler;
  asPostDispatchHandler : option nat
}.

(** [layoutResultsWithCompletionFuncs] and [formLayoutResult], as their uses
    in [runSyncLayout] and [FormBase.WndProc] show them. *)
Record layoutResultsWithCompletionFuncs : Type := mkLayoutResults {
  results : list nat;
  completionFuncs : list func
}.

Record formLayoutResult : Type := mkFormLayoutResult {
  form : nat;
  stopwatch : option nat;
  lr_results : layoutResultsWithCompletionFuncs
}.

(** ** Process state *)

Record onceWithPreInit : Type := mkOnce {
  init : Z;       (* uint32 *)
  mu : bool       (* true while the mutex is held *)
}.

Record Application : Type := mkApplication {
  uiThreadID : Z;
  ctx : option bool;            (* nil, or the context and whether it is cancelled *)
  walkInit : list func;
  exiting : bool;
  nextMsg : Z;
  syncFuncMsg : Z;
  syncLayoutMsg : Z;
  cloakChangeMsg : Z;
  msgWindow : HWND;
  syncFuncs : list func;
  layoutResultsByForm : option (gmap nat formLayoutResult);
  pToolTip : option nat;
  globalPreTranslateHandlers : list Handler;
  perWindowPreTranslateHandlers : option (gmap Z Handler);
  activeMessageLoops : Z;
  runMsgFilters : bool
}.

(** The zero value of [Application] with the thread identifier stored by the
    package's [init()]. *)
Definition zeroApplication (tid : Z) : Application :=
  mkApplication tid None [] false 0 0 0 0 0 [] None None [] None 0 false.

Definition set_ctx (v : option bool) (a : Application) : Application :=
  let '(mkApplication f1 _ f3 f4 f5 f6 f7 f8 f9 f10 f11 f12 f13 f14 f15 f16) := a in
  mkApplication f1 v f3 f4 f5 f6 f7 f8 f9 f10 f11 f12 f13 f14 f15 f16.
Definition set_walkInit (v : list func) (a : Application) : Application :=
  let '(mkApplication f1 f2 _ f4 f5 f6 f7 f8 f9 f10 f11 f12 f13 f14 f15 f16) := a in
  mkApplication f1 f2 v f4 f5 f6 f7 f8 f9 f10 f11 f12 f13 f14 f15 f16.
Definition set_exiting (v : bool) (a : Application) : Application :=
  let '(mkApplication f1 f2 f3 _ f5 f6 f7 f8 f9 f10 f11 f12 f13 f14 f15 f16) := a in
  mkApplication f1 f2 f3 v f5 f6 f7 f8 f9 f10 f11 f12 f13 f14 f15 f16.
Definition set_nextMsg (v : Z) (a : Application) : Application :=
  let '(mkApplication f1 f2 f3 f4 _ f6 f7 f8 f9 f10 f11 f12 f13 f14 f15 f16) := a in
  mkApplication f1 f2 f3 f4 v f6 f7 f8 f9 f10 f11 f12 f13 f14 f15 f16.
Definition set_syncFuncMsg (v : Z) (a : Application) : Application :=
  let '(mkApplication f1 f2 f3 f4 f5 _ f7 f8 f9 f10 f11 f12 f13 f14 f15 f16) := a in
  mkApplication f1 f2 f3 f4 f5 v f7 f8 f9 f10 f11 f12 f13 f14 f15 f16.
Definition set_syncLayoutMsg (v : Z) (a : Application) : Application :=
  let '(mkApplication f1 f2 f3 f4 f5 f6 _ f8 f9 f10 f11 f12 f13 f14 f15 f16) := a in
  mkApplication f1 f2 f3 f4 f5 f6 v f8 f9 f10 f11 f12 f13 f14 f15 f16.
Definition set_cloakChangeMsg (v : Z) (a : Application) : Application :=
  let '(mkApplication f1 f2 f3 f4 f5 f6 f7 _ f9 f10 f11 f12 f13 f14 f15 f16) := a in
  mkApplication f1 f2 f3 f4 f5 f6 f7 v f9 f10 f11 f12 f13 f14 f15 f16.
Definition set_msgWindow (v : HWND) (a : Application) : Application :=
  let '(mkApplication f1 f2 f3 f4 f5 f6 f7 f8 _ f10 f11 f12 f13 f14 f15 f16) := a in
  mkApplication f1 f2 f3 f4 f5 f6 f7 f8 v f10 f11 f12 f13 f14 f15 f16.
Definition set_syncFuncs (v : list func) (a : Application) : Application :=
  let '(mkApplication f1 f2 f3 f4 f5 f6 f7 f8 f9 _ f11 f12 f13 f14 f15 f16) := a in
  mkApplication f1 f2 f3 f4 f5 f6 f7 f8 f9 v f11 f12 f13 f14 f15 f16.
Definition set_layoutResultsByForm (v : option (gmap nat formLayoutResult))
    (a : Application) : Application :=
  let '(mkApplication f1 f2 f3 f4 f5 f6 f7 f8 f9 f10 _ f12 f13 f14 f15 f16) := a in
  mkApplication f1 f2 f3 f4 f5 f6 f7 f8 f9 f10 v f12 f13 f14 f15 f16.
Definition set_pToolTip (v : option nat) (a : Application) : Application :=
  let '(mkApplication f1 f2 f3 f4 f5 f6 f7 f8 f9 f10 f11 _ f13 f14 f15 f16) := a in
  mkApplication f1 f2 f3 f4 f5 f6 f7 f8 f9 f10 f11 v f13 f14 f15 f16.
Definition set_globalPreTranslateHandlers (v : list Handler) (a : Application) : Application :=
  let '(mkApplication f1 f2 f3 f4 f5 f6 f7 f8 f9 f10 f11 f12 _ f14 f15 f16) := a in
  mkApplication f1 f2 f3 f4 f5 f6 f7 f8 f9 f10 f11 f12 v f14 f15 f16.
Definition set_perWindowPreTranslateHandlers (v : option (gmap Z Handler))
    (a : Application) : Application :=
  let '(mkApplication f1 f2 f3 f4 f5 f6 f7 f8 f9 f10 f11 f12 f13 _ f15 f16) := a in
  mkApplication f1 f2 f3 f4 f5 f6 f7 f8 f9 f10 f11 f12 f13 v f15 f16.
Definition set_activeMessageLoops (v : Z) (a : Application) : Application :=
  let '(mkApplication f1 f2 f3 f4 f5 f6 f7 f8 f9 f10 f11 f12 f13 f14 _ f16) := a in
  mkApplication f1 f2 f3 f4 f5 f6 f7 f8 f9 f10 f11 f12 f13 f14 v f16.
Definition set_runMsgFilters (v : bool) (a : Application) : Application :=
  let '(mkApplication f1 f2 f3 f4 f5 f6 f7 f8 f9 f10 f11 f12 f13 f14 f15 _) := a in
  mkApplication f1 f2 f3 f4 f5 f6 f7 f8 f9 f10 f11 f12 f13 f14 f15 v.

(** Observable effects, in the order they happen. *)
Inductive event : Type :=
| EvCtxCancel                                  (* app.ctxCancel() *)
| EvPostQuitMessage (code : Z)                 (* win.PostQuitMessage *)
| EvRun (c : closure) (thread : Z)             (* runSyncFunc called [c] on [thread] *)
| EvCompletion (fn : func)                     (* runSyncLayout called a completion func *)
| EvGoPanic (e : any)                          (* go panic(e) *)
| EvApply (rs : list nat) (sw : option nat)    (* applyLayoutResults *)
| EvPreTranslate (h : Handler) (msg : MSG) (handled : bool)
                                               (* h.OnPreTranslate(msg) returned [handled] *)
| EvTranslate (msg : MSG)                      (* win.TranslateMessage *)
| EvDispatch (msg : MSG)                       (* win.DispatchMessage *)
| EvPostDispatch (h : nat)                     (* h.OnPostDispatch() *)
| EvDispose                                    (* modal.Dispose() *)
| EvEnableWindow (hwnd : HWND) (enable : bool) (* win.EnableWindow *)
| EvEnterMode.                                 (* modal.EnterMode() *)

(** The state the core runs in: the package globals, the posted-message queue
    of the UI thread and its pending quit request, the counter behind the
    randomised order of [range] over a map, and the state [ext] of everything
    that is not the core (windows, widgets, application code). *)
Record Sys (E : Type) : Type := mkSys {
  appOnce : onceWithPreInit;
  appSingleton : Application;
  queue : list MSG;
  quit : option Z;
  rng : nat;
  ext : E
}.
Arguments mkSys {E}.
Arguments appOnce {E}.
Arguments appSingleton {E}.
Arguments queue {E}.
Arguments quit {E}.
Arguments rng {E}.
Arguments ext {E}.

Record World (E : Type) : Type := mkWorld {
  sys : Sys E;
  trace : list event
}.
Arguments mkWorld {E}.
Arguments sys {E}.
Arguments trace {E}.

Definition set_appOnce {E} (v : onceWithPreInit) (s : Sys E) : Sys E :=
  mkSys v (appSingleton s) (queue s) (quit s) (rng s) (ext s).
Definition set_app {E} (v : Application) (s : Sys E) : Sys E :=
  mkSys (appOnce s) v (queue s) (quit s) (rng s) (ext s).
Definition set_queue {E} (v : list MSG) (s : Sys E) : Sys E :=
  mkSys (appOnce s) (appSingleton s) v (quit s) (rng s) (ext s).
Definition set_quit {E} (v : option Z) (s : Sys E) : Sys E :=
  mkSys (appOnce s) (appSingleton s) (queue s) v (rng s) (ext s).
Definition set_rng {E} (v : nat) (s : Sys E) : Sys E :=
  mkSys (appOnce s) (appSingleton s) (queue s) (quit s) v (ext s).
Definition set_ext {E} (v : E) (s : Sys E) : Sys E :=
  mkSys (appOnce s) (appSingleton s) (queue s) (quit s) (rng s) v.

(** Running a computation of a smaller state inside a larger one. *)
Definition liftE {E A} (m : Go E A) : Go (Sys E) A :=
  fun s => let '(r, e) := m (ext s) in (r, set_ext e s).

Definition liftS {E A} (m : Go (Sys E) A) : Go (World E) A :=
  fun w => let '(r, s) := m (sys w) in (r, mkWorld s (trace w)).

Definition emit {E} (ev : event) : Go (World E) unit :=
  fun w => (Ret tt, mkWorld (sys w) (trace w ++ [ev])).

Definition getApp {E} : Go (World E) Application :=
  fun w => (Ret (appSingleton (sys w)), w).

Definition modifyApp {E} (f : Application -> Application) : Go (World E) unit :=
  fun w => (Ret tt, mkWorld (set_app (f (appSingleton (sys w))) (sys w)) (trace w)).

(** A computation that sees the state but not the trace, as a computation on
    the state alone: what a callee that re-enters the core looks like to its
    caller. *)
Definition untraced {E A} (m : Go (World E) A) : Go (Sys E) A :=
  fun s => let '(r, w) := m (mkWorld s []) in (r, sys w).

(** ** The environment of the core *)

(** What the Go runtime decides: the order in which [range] visits a map.
    Every visit order is a rearrangement of the entries; the counter [rng]
    of the state makes successive loops independent. *)
Class GoRuntime : Type := {
  mapRange : forall A : Type, nat -> list A -> list A;
  mapRange_perm : forall (A : Type) (n : nat) (l : list A), mapRange A n l ≡ₚ l
}.

(** Code outside the core that the core calls and that does not call back
    into it: application closures, registered hooks (which receive the
    message by pointer and may alter it), and the Win32 calls whose outcome
    the core branches on.  Each acts on the external state only and may
    return, panic or block. *)
Class Externals (E : Type) : Type := {
  callUser : nat -> Go E unit;
  OnPreTranslate : Handler -> MSG -> Go E (bool * MSG);
  windowFromHandle : HWND -> E -> option Window;
  DefWindowProc : HWND -> Z -> Z -> Z -> Go E Z;
  waitGroup_Wait : Go E unit;
  applyLayoutResults : list nat -> option nat -> Go E unit;
  debug_Stack : E -> string;
  InitCommonControlsEx : Go E bool;
  MustRegisterWindowClassWithWndProcPtr : Go E unit;
  CreateWindowEx : Go E HWND;
  GetLastError : Go E Z;
  NewToolTip : Go E (option nat * option string)
}.

(** Win32 calls that run window procedures, and through them any code of the
    application or of the core (a dispatched message may register a hook,
    call [Synchronize] or open a modal window); they act on the whole
    state. *)
Class Win32 (E : Type) : Type := {
  TranslateMessage : MSG -> Go (Sys E) unit;
  DispatchMessage : MSG -> Go (Sys E) unit;
  OnPostDispatch : nat -> Go (Sys E) unit;
  CallMsgFilter : MSG -> Z -> Go (Sys E) bool;
  EnableWindow : HWND -> bool -> Go (Sys E) bool;
  waitForNextMessage : Go (Sys E) unit
}.

(** The [Modal] interface, as far as [RunModal] calls it.  [OwnerWindow]
    stands for [modal.OwnerWindow()] followed by [owner.Handle()];
    [modal_PostDispatch] is [Some] when the modal's dynamic type satisfies
    [PostDispatchHandler]. *)
Record Modal (E : Type) : Type := mkModal {
  Dispose : Go (Sys E) unit;
  modal_OnPreTranslate : MSG -> Go (Sys E) (bool * MSG);
  EnterMode : Go (Sys E) unit;
  OwnerWindow : Go (Sys E) (option HWND);
  Running : Go (Sys E) bool;
  modal_PostDispatch : option (Go (Sys E) unit)
}.
Arguments mkModal {E}.
Arguments Dispose {E}.
Arguments modal_OnPreTranslate {E}.
Arguments EnterMode {E}.
Arguments OwnerWindow {E}.
Arguments Running {E}.
Arguments modal_PostDispatch {E}.

Section Core.
Context {E : Type} {rt : GoRuntime} {X : Externals E} {W32 : Win32 E}.

Definition external {A} (m : Go E A) : Go (World E) A := liftS (liftE m).

(** [for _, x := range xs { f(x) }] over a slice. *)
Fixpoint forEach {A} (xs : list A) (f : A -> Go (World E) unit) : Go (World E) unit :=
  match xs with
  | [] => ret tt
  | x :: xs' => f x ;;; forEach xs' f
  end.

(** [for _, v := range m] over a map: the values in the order the runtime
    picks this time. *)
Definition rangeValues {K V} `{Countable K} (m : option (gmap K V)) : Go (World E) (list V) :=
  fun w =>
    let n := rng (sys w) in
    let vs := match m with
              | Some m => mapRange V n (snd <$> map_to_list m)
              | None => []
              end in
    (Ret vs, mkWorld (set_rng (S n) (sys w)) (trace w)).

(** *** Threads *)

Definition IsUIThread (tid : Z) (app : Application) : bool :=
  tid =? uiThreadID app.

Definition AssertUIThread (tid : Z) : Go (World E) unit :=
  app <- getApp ;;
  if IsUIThread tid app then ret tt else panic (AString "walk: not the UI thread").

(** *** Win32 message queue *)

Definition PostMessage (hwnd : HWND) (msg : Z) (wParam lParam : Z) : Go (World E) unit :=
  fun w => (Ret tt, mkWorld (set_queue (queue (sys w) ++ [mkMSG hwnd msg wParam lParam]) (sys w))
                            (trace w)).

Definition PostQuitMessage (code : Z) : Go (World E) unit :=
  fun w => (Ret tt, mkWorld (set_quit (Some code) (sys w)) (trace w ++ [EvPostQuitMessage code])).

(** [PeekMessage(&msg, 0, 0, 0, PM_REMOVE)]: the oldest posted message, or
    [WM_QUIT] once the queue is empty and a quit was requested. *)
Definition PeekMessage_remove : Go (World E) (option MSG) :=
  fun w =>
    match queue (sys w) with
    | m :: q => (Ret (Some m), mkWorld (set_queue q (sys w)) (trace w))
    | [] =>
        match quit (sys w) with
        | Some code => (Ret (Some (mkMSG 0 WM_QUIT code 0)),
                        mkWorld (set_quit None (sys w)) (trace w))
        | None => (Ret None, w)
        end
    end.

(** [GetMessage(&msg, 0, 0, 0)]: as [PeekMessage], but waits; with nothing
    posted and no quit requested the thread stays blocked.  The result is zero
    exactly for [WM_QUIT]. *)
Definition GetMessage : Go (World E) (Z * MSG) :=
  m <- PeekMessage_remove ;;
  match m with
  | Some msg => ret (if Message msg =? WM_QUIT then 0 else 1, msg)
  | None => block
  end.

(** *** onceWithPreInit *)

Definition getOnce : Go (World E) onceWithPreInit :=
  fun w => (Ret (appOnce (sys w)), w).

Definition mu_Lock : Go (World E) unit :=
  fun w =>
    let o := appOnce (sys w) in
    if mu o then (Block, w)
    else (Ret tt, mkWorld (set_appOnce (mkOnce (init o) true) (sys w)) (trace w)).

Definition mu_Unlock : Go (World E) unit :=
  fun w =>
    let o := appOnce (sys w) in
    (Ret tt, mkWorld (set_appOnce (mkOnce (init o) false) (sys w)) (trace w)).

Definition StoreUint32_init (v : Z) : Go (World E) unit :=
  fun w =>
    let o := appOnce (sys w) in
    (Ret tt, mkWorld (set_appOnce (mkOnce v (mu o)) (sys w)) (trace w)).

(** [f] stands for the closure passed to the once-guard; what the closure
    assigns to the variables it captured is its result here, and [None] says
    that it did not run. *)
Definition initSlow {A} (f : Go (World E) A) : Go (World E) (option A) :=
  mu_Lock ;;;
  defer mu_Unlock
    (o <- getOnce ;;
     if init o =? 0 then
       defer (StoreUint32_init 1) (a <- f ;; ret (Some a))
     else ret None).

Definition Init {A} (f : Go (World E) A) : Go (World E) (option A) :=
  o <- getOnce ;;
  if init o =? 0 then initSlow f else ret None.

Definition doPreInit (f : Go (World E) unit) : Go (World E) bool :=
  mu_Lock ;;;
  defer mu_Unlock
    (o <- getOnce ;;
     if init o =? 0 then f ;;; ret true else ret false).

Definition PreInit (f : Go (World E) unit) : Go (World E) bool :=
  o <- getOnce ;;
  if init o =? 0 then doPreInit f else ret false.

(** *** Calling closures *)

Definition nilDereference : any :=
  AError "runtime error: invalid memory address or nil pointer dereference".

(** [fn()]. *)
Definition callFunc (fn : func) : Go (World E) unit :=
  match fn with
  | None => panic nilDereference
  | Some (PostQuitMsg exitCode) => PostQuitMessage (int32 exitCode)
  | Some (UserFunc id) => external (callUser id)
  end.

(** *** Initialisation *)

Definition ErrNoMoreMessages : string := "message numbering space exhausted".
Definition errInitCommonControlsEx : string := "InitCommonControlsEx failed".

Definition AllocMessage (tid : Z) : Go (World E) (Z * option string) :=
  AssertUIThread tid ;;;
  app <- getApp ;;
  if firstRegisteredMessage <=? nextMsg app then ret (WM_NULL, Some ErrNoMoreMessages)
  else
    modifyApp (set_nextMsg (wrapUint32 (nextMsg app + 1))) ;;;
    ret (nextMsg app, None).

(** [%d] of [fmt.Sprintf]. *)
Definition decimal (x : Z) : string := NilZero.string_of_int (Z.to_int x).

(** [fmt.Sprintf("unable to create msgWindow for tid %d: Win32 error %d",
    app.uiThreadID, win.GetLastError())]. *)
Definition msgWindowFailure (tid err : Z) : string :=
  String.append "unable to create msgWindow for tid "
    (String.append (decimal tid) (String.append ": Win32 error " (decimal err))).

(** [Application.init].  The closure it returns is determined by the
    [walkInit] slice it captured, which stands for it here.  The two
    [UTF16PtrFromString] calls cannot fail: their arguments hold no NUL. *)
Definition Application_init (tid : Z) : Go (World E) (option (list func) * option string) :=
  AssertUIThread tid ;;;
  modifyApp (set_ctx (Some false)) ;;;
  modifyApp (set_nextMsg WM_APP) ;;;
  m1 <- AllocMessage tid ;;
  modifyApp (set_syncFuncMsg (fst m1)) ;;;
  m2 <- AllocMessage tid ;;
  modifyApp (set_syncLayoutMsg (fst m2)) ;;;
  m3 <- AllocMessage tid ;;
  modifyApp (set_cloakChangeMsg (fst m3)) ;;;
  ok <- external InitCommonControlsEx ;;
  if negb ok then ret (None, Some errInitCommonControlsEx)
  else
    external MustRegisterWindowClassWithWndProcPtr ;;;
    hwnd <- external CreateWindowEx ;;
    modifyApp (set_msgWindow hwnd) ;;;
    if hwnd =? 0 then
      app <- getApp ;;
      err <- external GetLastError ;;
      panic (AString (msgWindowFailure (uiThreadID app) err))
    else
      modifyApp (set_layoutResultsByForm (Some ∅)) ;;;
      modifyApp (set_perWindowPreTranslateHandlers (Some ∅)) ;;;
      app <- getApp ;;
      modifyApp (set_walkInit []) ;;;
      ret (Some (walkInit app), None).

Definition finalInitOutsideOnce (tid : Z) (walkInits : list func) : Go (World E) (option string) :=
  forEach walkInits callFunc ;;;
  r <- external NewToolTip ;;
  modifyApp (set_pToolTip (fst r)) ;;;
  ret (snd r).

(** A [*Application]: nil or the address of the singleton. *)
Inductive ptrApplication : Type := nilApplication | refAppSingleton.

Definition InitApp (tid : Z) : Go (World E) (ptrApplication * option string) :=
  r <- Init (Application_init tid) ;;
  let final := match r with Some (f, _) => f | None => None end in
  let err := match r with Some (_, e) => e | None => None end in
  match err with
  | Some e => ret (nilApplication, Some e)
  | None =>
      match final with
      | Some walkInits =>
          e <- finalInitOutsideOnce tid walkInits ;;
          match e with
          | Some e => ret (nilApplication, Some e)
          | None => ret (refAppSingleton, None)
          end
      | None => ret (refAppSingleton, None)
      end
  end.

Definition App : Go (World E) ptrApplication :=
  Init (panic (A := unit) (AString "walk.InitApp must be called first")) ;;;
  ret refAppSingleton.

Definition appendToWalkInit (fn : func) : Go (World E) unit :=
  app <- getApp ;;
  modifyApp (set_walkInit (walkInit app ++ [fn])).

Definition AppendToWalkInit (fn : func) : Go (World E) unit :=
  ok <- doPreInit (appendToWalkInit fn) ;;
  if ok then ret tt
  else panic (AString "walk.AppendToWalkInit cannot be called after walk.InitApp").

(** *** The fault-isolation boundary *)

Definition newline : string := String (Ascii.ascii_of_nat 10) EmptyString.

(** [redirectedPanicError.Error]: the type switch on [inner], then the
    message and the stack joined by a newline. *)
Fixpoint redirectedPanicError_Error (inner : any) (stack : string) : string :=
  let msg :=
    match inner with
    | AString v => v
    | AError m => m
    | ARedirected i s => redirectedPanicError_Error i s
    | AStringer v => v
    | AOpaque _ => EmptyString
    end in
  String.append msg (String.append newline stack).

Definition redirectedPanicError_Unwrap (inner : any) : option any :=
  match inner with
  | AError _ | ARedirected _ _ => Some inner
  | AString _ | AStringer _ | AOpaque _ => None
  end.

(** [HandlePanicFromNativeCallback], deferred: [x] is what its [recover()]
    returns. *)
Definition HandlePanicFromNativeCallback (x : option any) : Go (World E) unit :=
  match x with
  | Some x =>
      w <- get ;;
      let e := ARedirected x (debug_Stack (ext (sys w))) in
      emit (EvGoPanic e) ;;;   (* go panic(e) *)
      block                    (* select {} *)
  | None => ret tt
  end.

(** *** The bridge *)

(** [Synchronize] up to the release of [syncFuncsMutex], and the
    [PostMessage] after it; another goroutine can run between the two. *)
Definition Synchronize_locked (fn : func) : Go (World E) unit :=
  app <- getApp ;;
  modifyApp (set_syncFuncs (syncFuncs app ++ [fn])).

Definition Synchronize_post : Go (World E) unit :=
  app <- getApp ;;
  PostMessage (msgWindow app) (syncFuncMsg app) 0 0.

Definition Synchronize (fn : func) : Go (World E) unit :=
  Synchronize_locked fn ;;; Synchronize_post.

Definition nilMapAssignment : any := AError "assignment to entry in nil map".

(** [synchronizeLayout] up to the release of [syncLayoutMutex], and the
    [PostMessage] after it.  The mutex is not part of the state: the store
    into a nil map panics inside the critical section, and that the mutex
    stays locked after it is not kept here. *)
Definition synchronizeLayout_locked (result : formLayoutResult) : Go (World E) unit :=
  app <- getApp ;;
  match layoutResultsByForm app with
  | Some m => modifyApp (set_layoutResultsByForm (Some (<[form result := result]> m)))
  | None => panic nilMapAssignment
  end.

Definition synchronizeLayout_post : Go (World E) unit :=
  app <- getApp ;;
  PostMessage (msgWindow app) (syncLayoutMsg app) 0 0.

Definition synchronizeLayout (result : formLayoutResult) : Go (World E) unit :=
  synchronizeLayout_locked result ;;; synchronizeLayout_post.

Definition runSyncFunc (tid : Z) : Go (World E) unit :=
  app <- getApp ;;
  match syncFuncs app with
  | fn :: rest =>
      modifyApp (set_syncFuncs rest) ;;;
      match fn with
      | Some c => emit (EvRun c tid) ;;; callFunc fn
      | None => ret tt
      end
  | [] => ret tt
  end.

(** [clear(m)]: a nil map stays nil. *)
Definition clearMap {K V} `{Countable K} (m : option (gmap K V)) : option (gmap K V) :=
  match m with
  | Some _ => Some ∅
  | None => None
  end.

Definition runSyncLayout : Go (World E) unit :=
  app <- getApp ;;
  layoutResults <- rangeValues (layoutResultsByForm app) ;;
  modifyApp (set_layoutResultsByForm (clearMap (layoutResultsByForm app))) ;;;
  forEach layoutResults (fun lr =>
    emit (EvApply (results (lr_results lr)) (stopwatch lr)) ;;;
    external (applyLayoutResults (results (lr_results lr)) (stopwatch lr))) ;;;
  forEach layoutResults (fun lr =>
    forEach (completionFuncs (lr_results lr)) (fun fn =>
      emit (EvCompletion fn) ;;; callFunc fn)).

(** The window procedure of the message window, running on thread [tid]. *)
Definition appMsgWndProc (tid : Z) (hwnd : HWND) (msg : Z) (wParam lParam : Z) : Go (World E) Z :=
  deferRecover HandlePanicFromNativeCallback 0
    (app <- getApp ;;
     if msg =? syncFuncMsg app then runSyncFunc tid ;;; ret 0
     else if msg =? syncLayoutMsg app then runSyncLayout ;;; ret 0
     else external (DefWindowProc hwnd msg wParam lParam)).

(** *** Exit *)

Definition ctxCancel : Go (World E) unit :=
  app <- getApp ;;
  match ctx app with
  | Some _ => modifyApp (set_ctx (Some true)) ;;; emit EvCtxCancel
  | None => panic nilDereference
  end.

Definition Exit (tid : Z) (exitCode : Z) : Go (World E) unit :=
  app <- getApp ;;
  if exiting app then ret tt      (* CompareAndSwap(false, true) failed *)
  else
    modifyApp (set_exiting true) ;;;
    ctxCancel ;;;
    let postQuitMsg := Some (PostQuitMsg exitCode) in
    if negb (IsUIThread tid app) then Synchronize postQuitMsg
    else callFunc postQuitMsg.

(** *** Pre-translate hooks *)

Definition AddGlobalPreTranslateHandler (tid : Z) (handler : option Handler) : Go (World E) unit :=
  AssertUIThread tid ;;;
  match handler with
  | Some h =>
      app <- getApp ;;
      modifyApp (set_globalPreTranslateHandlers (globalPreTranslateHandlers app ++ [h]))
  | None => ret tt
  end.

Definition AddPreTranslateHandlerForHWND (tid : Z) (hwnd : HWND) (handler : option Handler)
    : Go (World E) unit :=
  AssertUIThread tid ;;;
  match handler with
  | Some h =>
      if hwnd =? 0 then panic (AError "invalid argument")
      else
        app <- getApp ;;
        match perWindowPreTranslateHandlers app with
        | Some m => modifyApp (set_perWindowPreTranslateHandlers (Some (<[hwnd := h]> m)))
        | None => panic nilMapAssignment
        end
  | None => panic (AError "invalid argument")
  end.

Definition DeletePreTranslateHandlerForHWND (tid : Z) (hwnd : HWND) : Go (World E) unit :=
  AssertUIThread tid ;;;
  app <- getApp ;;
  modifyApp (set_perWindowPreTranslateHandlers (delete hwnd <$> perWindowPreTranslateHandlers app)).

(** One of the two [for ... range] loops of [runPreTranslateHandler]: the
    handlers are offered the message in turn until one returns true.  The
    result carries the message as the handlers left it. *)
Fixpoint runHandlers (hs : list Handler) (msg : MSG) : Go (World E) (bool * MSG) :=
  match hs with
  | [] => ret (false, msg)
  | h :: hs' =>
      r <- external (OnPreTranslate h msg) ;;
      emit (EvPreTranslate h msg (fst r)) ;;;
      if fst r then ret (true, snd r) else runHandlers hs' (snd r)
  end.

Definition getMsgWindow (msg : MSG) : Go (World E) (option Window) :=
  fun w => (Ret (windowFromHandle (HWnd msg) (ext (sys w))), w).

Definition runPreTranslateHandler (msg : MSG) : Go (World E) (bool * MSG) :=
  app <- getApp ;;
  (* Order is important here: run the global handlers first... *)
  r <- runHandlers (globalPreTranslateHandlers app) msg ;;
  if fst r then ret r
  else
    (* ...Then the per-window handlers... *)
    perWindow <- rangeValues (perWindowPreTranslateHandlers app) ;;
    r <- runHandlers perWindow (snd r) ;;
    if fst r then ret r
    else
      (* ...Then, if present, the handler associated with msg's HWND. *)
      w <- getMsgWindow (snd r) ;;
      match w with
      | None => ret (false, snd r)
      | Some w =>
          match asPreTranslateHandler w with
          | Some h =>
              r' <- external (OnPreTranslate h (snd r)) ;;
              emit (EvPreTranslate h (snd r) (fst r')) ;;;
              ret r'
          | None => ret (false, snd r)
          end
      end.

Definition runPostDispatchHandler (msg : MSG) : Go (World E) unit :=
  w <- getMsgWindow msg ;;
  match w with
  | None => ret tt
  | Some w =>
      match asPostDispatchHandler w with
      | Some h => emit (EvPostDispatch h) ;;; liftS (OnPostDispatch h)
      | None => ret tt
      end
  end.

(** *** Dispatch *)

(** [win.DispatchMessage]: the window procedure of the window of [msg] runs
    on the thread of the loop, which is the thread that created the window.
    For the message window that procedure is [appMsgWndProc]; the procedures
    of all other windows belong to the environment. *)
Definition dispatchMessage (msg : MSG) : Go (World E) unit :=
  app <- getApp ;;
  if negb (msgWindow app =? 0) && (HWnd msg =? msgWindow app)
  then appMsgWndProc (uiThreadID app) (HWnd msg) (Message msg) (WParam msg) (LParam msg) ;;; ret tt
  else liftS (DispatchMessage msg).

(** *** The top-level loop *)

Definition outOfFuel {A} : Go (World E) A := fun w => (OutOfFuel, w).

(** One pass of the body of the [for win.GetMessage(...) != 0] loop, for the
    message just fetched. *)
Definition mainLoopBody (msg : MSG) : Go (World E) unit :=
  r <- runPreTranslateHandler msg ;;
  if fst r then ret tt     (* continue *)
  else
    emit (EvTranslate (snd r)) ;;;
    liftS (TranslateMessage (snd r)) ;;;
    emit (EvDispatch (snd r)) ;;;
    dispatchMessage (snd r) ;;;
    runPostDispatchHandler (snd r).

(** The [for] loop of [runMainMessageLoop] and the [return] after it: the
    [uintptr] in [msg.WParam] is converted to [int]. *)
Fixpoint messageLoop (fuel : nat) : Go (World E) Z :=
  match fuel with
  | O => outOfFuel
  | S n =>
      r <- GetMessage ;;
      if fst r =? 0 then ret (wrapInt (WParam (snd r)))     (* int(msg.WParam) *)
      else mainLoopBody (snd r) ;;; messageLoop n
  end.

Definition nestedTopLevelLoop : any :=
  AString "Unexpected nesting of top-level message loop".

(** [app.activeMessageLoops++] and the deferred [app.activeMessageLoops--]. *)
Definition enterLoop : Go (World E) unit :=
  modifyApp (fun a => set_activeMessageLoops (wrapInt (activeMessageLoops a + 1)) a).

Definition leaveLoop : Go (World E) unit :=
  modifyApp (fun a => set_activeMessageLoops (wrapInt (activeMessageLoops a - 1)) a).

Definition runMainMessageLoop (fuel : nat) : Go (World E) Z :=
  app <- getApp ;;
  if negb (activeMessageLoops app =? 0) then panic nestedTopLevelLoop
  else
    enterLoop ;;;
    defer leaveLoop (messageLoop fuel).

Definition Run (tid : Z) (fuel : nat) : Go (World E) Z :=
  AssertUIThread tid ;;;
  exitCode <- runMainMessageLoop fuel ;;
  external waitGroup_Wait ;;;
  ret exitCode.

(** *** The modal loop *)

Definition popMessage : Go (World E) (option (MSG * bool)) :=
  m <- PeekMessage_remove ;;
  match m with
  | Some msg =>
      let quit := Message msg =? WM_QUIT in
      (if quit then PostQuitMessage (int32 (WParam msg)) else ret tt) ;;;
      ret (Some (msg, quit))
  | None => ret None
  end.

Definition MSGF_USER : Z := 4096.

Fixpoint modalLoop (modal : Modal E) (fuel : nat) : Go (World E) unit :=
  match fuel with
  | O => outOfFuel
  | S n =>
      running <- liftS (Running modal) ;;
      if negb running then ret tt
      else
        r <- popMessage ;;
        match r with
        | Some (msg, quit) =>
            if quit then ret tt     (* return *)
            else
              app <- getApp ;;
              filtered <-
                (if runMsgFilters app
                 then liftS (CallMsgFilter msg (int32 (int32 MSGF_USER + int32 (activeMessageLoops app))))
                 else ret false) ;;
              if filtered then modalLoop modal n
              else
                h <- liftS (modal_OnPreTranslate modal msg) ;;
                if fst h then modalLoop modal n
                else
                  emit (EvTranslate (snd h)) ;;;
                  liftS (TranslateMessage (snd h)) ;;;
                  emit (EvDispatch (snd h)) ;;;
                  dispatchMessage (snd h) ;;;
                  match modal_PostDispatch modal with
                  | Some postDispatch => liftS postDispatch
                  | None => ret tt
                  end ;;;
                  modalLoop modal n
        | None =>
            running' <- liftS (Running modal) ;;
            (if running' then liftS waitForNextMessage else ret tt) ;;;
            modalLoop modal n
        end
  end.

Definition modalBody (modal : Modal E) (fuel : nat) : Go (World E) unit :=
  emit EvEnterMode ;;;
  liftS (EnterMode modal) ;;;
  modalLoop modal fuel.

Definition RunModal (tid : Z) (modal : Modal E) (fuel : nat) : Go (World E) unit :=
  AssertUIThread tid ;;;
  enterLoop ;;;
  defer leaveLoop
    (defer (emit EvDispose ;;; liftS (Dispose modal))
       (owner <- liftS (OwnerWindow modal) ;;
        match owner with
        | Some ohwnd =>
            emit (EvEnableWindow ohwnd false) ;;;
            wasDisabled <- liftS (EnableWindow ohwnd false) ;;
            if negb wasDisabled then
              defer (emit (EvEnableWindow ohwnd true) ;;;
                     liftS (EnableWindow ohwnd true) ;;; ret tt)
                (modalBody modal fuel)
            else modalBody modal fuel
        | None => modalBody modal fuel
        end)).

End Core.

(** ** Forms and the layout performer *)

Record Size : Type := mkSize { Width : Z; Height : Z }.

Definition maxSize (a b : Size) : Size :=
  mkSize (Z.max (Width a) (Width b)) (Z.max (Height a) (Height b)).

(** [layoutStartInfo], with the layout item reduced to the client size the
    form hands to it. *)
Record layoutStartInfo : Type := mkLayoutStartInfo {
  item_ClientSize : Size;
  start_completionFuncs : list func
}.

(** The fields of [FormBase] that [startLayout] and the sizing cases of
    [WndProc] read or write.  [performLayout] is false for a nil channel;
    [hasLayout] is [fb.Layout() != nil]. *)
Record FormBase : Type := mkFormBase {
  fb_form : nat;
  fb_stopwatch : option nat;
  performLayout : bool;
  proposedSize : Size;
  inSizingLoop : bool;
  startingLayoutViaSizingLoop : bool;
  hasLayout : bool;
  suspended : bool
}.

Definition set_proposedSize (v : Size) (f : FormBase) : FormBase :=
  mkFormBase (fb_form f) (fb_stopwatch f) (performLayout f) v (inSizingLoop f)
             (startingLayoutViaSizingLoop f) (hasLayout f) (suspended f).
Definition set_inSizingLoop (v : bool) (f : FormBase) : FormBase :=
  mkFormBase (fb_form f) (fb_stopwatch f) (performLayout f) (proposedSize f) v
             (startingLayoutViaSizingLoop f) (hasLayout f) (suspended f).
Definition set_startingLayoutViaSizingLoop (v : bool) (f : FormBase) : FormBase :=
  mkFormBase (fb_form f) (fb_stopwatch f) (performLayout f) (proposedSize f) (inSizingLoop f)
             v (hasLayout f) (suspended f).

(** The worker behind the form's channels, as the owner thread meets it.
    [lp_offer] is a result the worker is offering on the [layoutResults]
    channel. *)
Record LayoutPerformer : Type := mkLayoutPerformer {
  lp_alive : bool;
  lp_sizing : bool;
  lp_stopwatch : option nat;
  lp_offer : option layoutResultsWithCompletionFuncs
}.

Record FormWorld (E : Type) : Type := mkFormWorld {
  fb : FormBase;
  performer : LayoutPerformer;
  world : World E
}.
Arguments mkFormWorld {E}.
Arguments fb {E}.
Arguments performer {E}.
Arguments world {E}.

(** What the form asks of its window, its container and the layout engine. *)
Class FormExternals (E : Type) : Type := {
  clientSizeFromSizePixels : Size -> E -> Size;
  sizeFromClientSizePixels : Size -> E -> Size;
  MinSizeForSize : Size -> E -> Size;
  SetSizePixels : Size -> Go E unit;
  Invalidate : Go E unit;
  clientComposite_SetBoundsPixels : Size -> Go E unit;
  stopwatch_Start : nat -> Go E unit;
  stopwatch_Stop : nat -> Go E unit;
  WindowBase_WndProc : HWND -> Z -> Z -> Z -> Go E Z;
  computeLayout : Size -> E -> list nat
}.

Definition WM_ENTERSIZEMOVE : Z := 0x0231.
Definition WM_EXITSIZEMOVE : Z := 0x0232.
Definition WM_WINDOWPOSCHANGED : Z := 0x0047.
Definition SWP_NOSIZE : Z := 0x0001.
Definition SWP_SHOWWINDOW : Z := 0x0040.

(** The [WINDOWPOS] behind the [lParam] of [WM_WINDOWPOSCHANGED]. *)
Record WINDOWPOS : Type := mkWINDOWPOS { Flags : Z; Cx : Z; Cy : Z }.

Section Form.
Context {E : Type} {rt : GoRuntime} {X : Externals E} {W32 : Win32 E} {FX : FormExternals E}.

Definition inWorld {A} (m : Go (World E) A) : Go (FormWorld E) A :=
  fun fw => let '(r, w) := m (world fw) in (r, mkFormWorld (fb fw) (performer fw) w).

Definition getForm : Go (FormWorld E) FormBase :=
  fun fw => (Ret (fb fw), fw).

Definition modifyForm (f : FormBase -> FormBase) : Go (FormWorld E) unit :=
  fun fw => (Ret tt, mkFormWorld (f (fb fw)) (performer fw) (world fw)).

Definition getExt : Go (FormWorld E) E :=
  fun fw => (Ret (ext (sys (world fw))), fw).

Definition setPerformer (p : LayoutPerformer) : Go (FormWorld E) unit :=
  fun fw => (Ret tt, mkFormWorld (fb fw) p (world fw)).

(** Modelled from the spec: the worker goroutine of [startLayoutPerformer],
    whose source is not part of the repository files at hand.  The spec's
    section 4.4 gives its hand-off: when the worker finishes a computation and
    the owner thread is in an interactive resize, the result is delivered
    synchronously on the dedicated rendezvous (the [layoutResults] channel);
    otherwise it is delivered through the bridge's batched layout-result path
    ([synchronizeLayout]); a stopped worker publishes nothing.  [publish] is
    that step, for the result of the request [info]. *)
Definition publish (info : layoutStartInfo) : Go (FormWorld E) unit :=
  fun fw =>
    let p := performer fw in
    let res := mkLayoutResults (computeLayout (item_ClientSize info) (ext (sys (world fw))))
                               (start_completionFuncs info) in
    if lp_sizing p then
      (Ret tt, mkFormWorld (fb fw)
                 (mkLayoutPerformer (lp_alive p) (lp_sizing p) (lp_stopwatch p) (Some res))
                 (world fw))
    else
      inWorld (synchronizeLayout (mkFormLayoutResult (fb_form (fb fw)) (lp_stopwatch p) res)) fw.

(** [fb.performLayout <- info]: the send completes when the worker takes
    the request, after which the worker computes and publishes; with the
    worker gone nobody receives and the sender stays blocked. *)
Definition send_performLayout (info : layoutStartInfo) : Go (FormWorld E) unit :=
  fun fw =>
    if lp_alive (performer fw) then publish info fw else (Block, fw).

(** [fb.inSizeLoop <- b]: the worker records the owner's resize state. *)
Definition send_inSizeLoop (b : bool) : Go (FormWorld E) unit :=
  fun fw =>
    let p := performer fw in
    if lp_alive p then
      (Ret tt, mkFormWorld (fb fw)
                 (mkLayoutPerformer (lp_alive p) b (lp_stopwatch p) (lp_offer p))
                 (world fw))
    else (Block, fw).

(** [<-fb.layoutResults]: takes the result the worker offers, or waits. *)
Definition recv_layoutResults : Go (FormWorld E) layoutResultsWithCompletionFuncs :=
  fun fw =>
    let p := performer fw in
    match lp_offer p with
    | Some res =>
        (Ret res, mkFormWorld (fb fw)
                    (mkLayoutPerformer (lp_alive p) (lp_sizing p) (lp_stopwatch p) None)
                    (world fw))
    | None => (Block, fw)
    end.

Definition startLayout (completionFuncs : list func) : Go (FormWorld E) bool :=
  f <- getForm ;;
  if negb (performLayout f) || (inSizingLoop f && negb (startingLayoutViaSizingLoop f))
  then ret false
  else
    e <- getExt ;;
    let cs := clientSizeFromSizePixels (proposedSize f) e in
    let min := MinSizeForSize (proposedSize f) e in
    cs <-
      (if (Width cs <? Width min) || (Height cs <? Height min) then
         let cs := maxSize cs min in
         e <- getExt ;;
         inWorld (external (SetSizePixels (sizeFromClientSizePixels cs e))) ;;;
         inWorld (external Invalidate) ;;;
         ret cs
       else ret cs) ;;
    inWorld (external (clientComposite_SetBoundsPixels cs)) ;;;
    send_performLayout (mkLayoutStartInfo cs completionFuncs) ;;;
    ret true.

Definition stopwatchDo (f : nat -> Go E unit) (sw : option nat) : Go (FormWorld E) unit :=
  match sw with
  | Some s => inWorld (external (f s))
  | None => ret tt
  end.

Definition applyResults (rs : layoutResultsWithCompletionFuncs) (sw : option nat)
    : Go (FormWorld E) unit :=
  inWorld (emit (EvApply (results rs) sw)) ;;;
  inWorld (external (applyLayoutResults (results rs) sw)).

(** The [WM_WINDOWPOSCHANGED] case of [FormBase.WndProc], up to its [break]. *)
Definition onWindowPosChanged (wp : WINDOWPOS) : Go (FormWorld E) unit :=
  (if negb (Z.land (Flags wp) SWP_SHOWWINDOW =? 0)
   then startLayout [] ;;; ret tt else ret tt) ;;;
  f <- getForm ;;
  if negb (Z.land (Flags wp) SWP_NOSIZE =? 0) || negb (hasLayout f) || suspended f
  then ret tt    (* break *)
  else
    modifyForm (set_proposedSize (mkSize (Cx wp) (Cy wp))) ;;;
    (if inSizingLoop f then
       modifyForm (set_startingLayoutViaSizingLoop true) ;;;
       stopwatchDo stopwatch_Start (fb_stopwatch f)
     else ret tt) ;;;
    started <- startLayout [] ;;
    if started then
      f <- getForm ;;
      if inSizingLoop f then
        modifyForm (set_startingLayoutViaSizingLoop false) ;;;
        rs <- recv_layoutResults ;;
        applyResults rs (fb_stopwatch f) ;;;
        stopwatchDo stopwatch_Stop (fb_stopwatch f)
      else ret tt
    else ret tt.

(** [FormBase.WndProc] for the three messages of the sizing protocol; every
    case ends in [WindowBase.WndProc]. *)
Definition FormBase_WndProc (hwnd : HWND) (msg : Z) (wParam lParam : Z) (wp : WINDOWPOS)
    : Go (FormWorld E) Z :=
  (if msg =? WM_ENTERSIZEMOVE then
     modifyForm (set_inSizingLoop true) ;;; send_inSizeLoop true
   else if msg =? WM_EXITSIZEMOVE then
     modifyForm (set_inSizingLoop false) ;;; send_inSizeLoop false
   else if msg =? WM_WINDOWPOSCHANGED then onWindowPosChanged wp
   else ret tt) ;;;
  inWorld (external (WindowBase_WndProc hwnd msg wParam lParam)).

End Form.

(** ** Interleavings on the bridge *)

(** The atomic steps by which goroutines and the UI thread meet at the
    message window: a goroutine runs the critical section of [Synchronize],
    later it posts the wake-up; anybody posts some other message to the
    message window; the UI thread's loop takes the oldest posted message and
    dispatches it, which runs [appMsgWndProc] on the UI thread. *)
Inductive action : Type :=
| DoSynchronizeLocked (fn : func)
| DoSynchronizePost
| DoPostOther (msg wParam lParam : Z)
| DoDeliver.

Section Schedule.
Context {E : Type} {rt : GoRuntime} {X : Externals E} {W32 : Win32 E}.

Definition isSyncFuncMessage (app : Application) (m : MSG) : bool :=
  (HWnd m =? msgWindow app) && (Message m =? syncFuncMsg app).

(** The state of an interleaving: the world, and how many goroutines are
    between the two halves of [Synchronize]. *)
Definition normally {A} (r : result A * World E) (k : nat) : option (World E * nat) :=
  match r with
  | (Ret _, w) => Some (w, k)
  | _ => None
  end.

(** One step; [None] when the step is not possible in this state or does not
    return (the UI thread blocked behind the boundary, for one). *)
Definition step (a : action) (st : World E * nat) : option (World E * nat) :=
  let '(w, k) := st in
  let app := appSingleton (sys w) in
  match a with
  | DoSynchronizeLocked fn => normally (Synchronize_locked fn w) (S k)
  | DoSynchronizePost =>
      match k with
      | O => None
      | S k' => normally (Synchronize_post w) k'
      end
  | DoPostOther msg wParam lParam =>
      if msg =? syncFuncMsg app then None
      else normally (PostMessage (msgWindow app) msg wParam lParam w) k
  | DoDeliver =>
      match queue (sys w) with
      | [] => None
      | m :: q =>
          if HWnd m =? msgWindow app then
            normally (appMsgWndProc (uiThreadID app) (HWnd m) (Message m) (WParam m) (LParam m)
                        (mkWorld (set_queue q (sys w)) (trace w))) k
          else None
      end
  end.

Fixpoint runSchedule (acts : list action) (st : World E * nat) : option (World E * nat) :=
  match acts with
  | [] => Some st
  | a :: acts' =>
      match step a st with
      | Some st' => runSchedule acts' st'
      | None => None
      end
  end.

(** The funcs handed to [Synchronize] in an interleaving, in the order in
    which their goroutines held the mutex. *)
Fixpoint submitted (acts : list action) : list func :=
  match acts with
  | [] => []
  | DoSynchronizeLocked fn :: acts' => fn :: submitted acts'
  | _ :: acts' => submitted acts'
  end.

(** The closures [runSyncFunc] has called, oldest first. *)
Fixpoint executed (tr : list event) : list closure :=
  match tr with
  | [] => []
  | EvRun c _ :: tr' => c :: executed tr'
  | _ :: tr' => executed tr'
  end.

(** The threads on which [runSyncFunc] has called closures. *)
Fixpoint runThreads (tr : list event) : list Z :=
  match tr with
  | [] => []
  | EvRun _ t :: tr' => t :: runThreads tr'
  | _ :: tr' => runThreads tr'
  end.

(** The non-nil funcs of a list: those [runSyncFunc] calls. *)
Definition callable (fns : list func) : list closure := omap id fns.

(** The wake-ups of [Synchronize] among the posted messages. *)
Fixpoint countWakeups (app : Application) (q : list MSG) : nat :=
  match q with
  | [] => O
  | m :: q' => ((if isSyncFuncMessage app m then 1 else 0) + countWakeups app q')%nat
  end.

Definition wakeups (w : World E) : nat :=
  countWakeups (appSingleton (sys w)) (queue (sys w)).

(** Every queued func has its wake-up: posted already, or about to be posted
    by one of the [k] goroutines between the halves of [Synchronize]. *)
Definition bridgeInv (w : World E) (k : nat) : Prop :=
  (wakeups w + k = length (syncFuncs (appSingleton (sys w))))%nat.

End Schedule.

(** ** Vocabulary of the statements *)

Section Vocabulary.
Context {E : Type} {rt : GoRuntime} {X : Externals E} {W32 : Win32 E}.

(** The world after [go panic(e)] for the redirected panic of [x]. *)
Definition reraised (x : any) (w : World E) : World E :=
  mkWorld (sys w) (trace w ++ [EvGoPanic (ARedirected x (debug_Stack (ext (sys w))))]).

(** What the bridge's func queue is about: the queued funcs, the posted
    messages, the closures called so far and their threads, and the three
    fields of the singleton that address the wake-up. *)
Definition bridgeView (w : World E) : list func * list MSG * list closure * list Z * (HWND * Z * Z) :=
  let app := appSingleton (sys w) in
  (syncFuncs app, queue (sys w), executed (trace w), runThreads (trace w),
   (msgWindow app, syncFuncMsg app, uiThreadID app)).

(** A computation that leaves the bridge's func queue alone. *)
Definition bridgeStable {A} (m : Go (World E) A) : Prop :=
  forall w, bridgeView (snd (m w)) = bridgeView w.

(** What one step does to the bridge. *)
Definition stepEffect (a : action) (w w' : World E) : Prop :=
  msgWindow (appSingleton (sys w')) = msgWindow (appSingleton (sys w)) /\
  syncFuncMsg (appSingleton (sys w')) = syncFuncMsg (appSingleton (sys w)) /\
  uiThreadID (appSingleton (sys w')) = uiThreadID (appSingleton (sys w)) /\
  exists popped : list func,
    syncFuncs (appSingleton (sys w)) ++ submitted [a]
      = popped ++ syncFuncs (appSingleton (sys w')) /\
    executed (trace w') = executed (trace w) ++ callable popped /\
    runThreads (trace w') =
      runThreads (trace w) ++ repeat (uiThreadID (appSingleton (sys w))) (length (callable popped)).

(** [Exit] called once per entry of [calls], each entry giving the calling
    thread and the exit code, in the order in which the calls reach the
    compare-and-swap. *)
Definition exitAll (calls : list (Z * Z)) : Go (World E) unit :=
  forEach calls (fun call => Exit (fst call) (snd call)).

(** The layout results [runSyncLayout] takes out of the map when it starts in
    [w], in the order in which it visits them. *)
Definition layoutBatch (w : World E) : list formLayoutResult :=
  match layoutResultsByForm (appSingleton (sys w)) with
  | Some m => mapRange formLayoutResult (rng (sys w)) (snd <$> map_to_list m)
  | None => []
  end.

(** The applications and the completion calls among the events. *)
Fixpoint layoutEvents (tr : list event) : list event :=
  match tr with
  | [] => []
  | EvApply rs sw :: tr' => EvApply rs sw :: layoutEvents tr'
  | EvCompletion fn :: tr' => EvCompletion fn :: layoutEvents tr'
  | _ :: tr' => layoutEvents tr'
  end.

Definition applications (lrs : list formLayoutResult) : list event :=
  map (fun lr => EvApply (results (lr_results lr)) (stopwatch lr)) lrs.

Definition completions (lrs : list formLayoutResult) : list event :=
  flat_map (fun lr => map EvCompletion (completionFuncs (lr_results lr))) lrs.

(** [synchronizeLayout] called for each result of [rs] in turn. *)
Definition submitAll (rs : list formLayoutResult) : Go (World E) unit :=
  forEach rs synchronizeLayout.

(** The last result of [rs] that is for form [f]. *)
Fixpoint latest (f : nat) (rs : list formLayoutResult) : option formLayoutResult :=
  match rs with
  | [] => None
  | r :: rs' =>
      match latest f rs' with
      | Some r' => Some r'
      | None => if (form r =? f)%nat then Some r else None
      end
  end.

(** A computation adds, as its applications and completion calls, the first
    [n] of [evs] for some [n], and all of them when it returns. *)
Definition layoutTraced {A} (m : Go (World E) A) (evs : list event) : Prop :=
  forall w, exists n : nat,
    (n <= length evs)%nat /\
    layoutEvents (trace (snd (m w))) = layoutEvents (trace w) ++ take n evs /\
    (forall a, fst (m w) = Ret a -> n = length evs).

(** A computation that leaves the observation [obs] of the world as it
    was, however it ends. *)
Definition preserves {T A} (obs : World E -> T) (m : Go (World E) A) : Prop :=
  forall w, obs (snd (m w)) = obs w.

(** A computation that does not change the singleton. *)
Definition appStable {A} (m : Go (World E) A) : Prop :=
  forall w, appSingleton (sys (snd (m w))) = appSingleton (sys w).

(** The two loops of [runSyncLayout]. *)
Definition applyLoop (lrs : list formLayoutResult) : Go (World E) unit :=
  forEach lrs (fun lr =>
    emit (EvApply (results (lr_results lr)) (stopwatch lr)) ;;;
    external (applyLayoutResults (results (lr_results lr)) (stopwatch lr))).

Definition completionLoop (lrs : list formLayoutResult) : Go (World E) unit :=
  forEach lrs (fun lr =>
    forEach (completionFuncs (lr_results lr)) (fun fn =>
      emit (EvCompletion fn) ;;; callFunc fn)).

(** The world in which the loops start: the map cleared, the runtime's
    counter advanced. *)
Definition drained (w : World E) : World E :=
  mkWorld (set_app (set_layoutResultsByForm
                      (clearMap (layoutResultsByForm (appSingleton (sys w))))
                      (appSingleton (sys w)))
                   (set_rng (S (rng (sys w))) (sys w)))
          (trace w).

(** The map after [synchronizeLayout] stored each result of [rs] in turn. *)
Definition storeAll (m : gmap nat formLayoutResult) (rs : list formLayoutResult)
    : gmap nat formLayoutResult :=
  foldl (fun m r => <[form r := r]> m) m rs.

(** The hook calls that returned, with what they returned, oldest first. *)
Fixpoint hookCalls (tr : list event) : list (Handler * bool) :=
  match tr with
  | [] => []
  | EvPreTranslate h _ handled :: tr' => (h, handled) :: hookCalls tr'
  | _ :: tr' => hookCalls tr'
  end.

(** The messages handed to [TranslateMessage] or [DispatchMessage]. *)
Fixpoint translatedOrDispatched (tr : list event) : list MSG :=
  match tr with
  | [] => []
  | EvTranslate m :: tr' => m :: translatedOrDispatched tr'
  | EvDispatch m :: tr' => m :: translatedOrDispatched tr'
  | _ :: tr' => translatedOrDispatched tr'
  end.

Definition declined (hs : list Handler) : list (Handler * bool) :=
  map (fun h => (h, false)) hs.

(** The handlers registered per window, in the order in which
    [runPreTranslateHandler] visits them when it starts in [w]. *)
Definition perWindowOrder (w : World E) : list Handler :=
  match perWindowPreTranslateHandlers (appSingleton (sys w)) with
  | Some m => mapRange Handler (rng (sys w)) (snd <$> map_to_list m)
  | None => []
  end.

(** The handler that the window of [msg] implements itself, if [msg] is for
    a walk window that is a [PreTranslateHandler]. *)
Definition ownHandler (msg : MSG) (e : E) : list Handler :=
  match windowFromHandle (HWnd msg) e with
  | Some win =>
      match asPreTranslateHandler win with
      | Some h => [h]
      | None => []
      end
  | None => []
  end.

(** How a chain of candidate hooks is worked off: on a result of false every
    candidate was called and declined; on a result of true the candidates
    before some candidate [h] declined, [h] accepted, and none after [h] was
    called; when the chain does not return, the candidates before the one
    that did not return declined. *)
Definition shortCircuit (cands : list Handler) (r : result (bool * MSG))
    (calls : list (Handler * bool)) : Prop :=
  match r with
  | Ret (false, _) => calls = declined cands
  | Ret (true, _) =>
      exists (k : nat) (h : Handler),
        cands !! k = Some h /\ calls = declined (take k cands) ++ [(h, true)]
  | _ => exists k : nat, (k < length cands)%nat /\ calls = declined (take k cands)
  end.

(** The last stage of [runPreTranslateHandler]: the window's own handler. *)
Definition ownStage (msg : MSG) : Go (World E) (bool * MSG) :=
  w <- getMsgWindow msg ;;
  match w with
  | None => ret (false, msg)
  | Some w =>
      match asPreTranslateHandler w with
      | Some h =>
          r' <- external (OnPreTranslate h msg) ;;
          emit (EvPreTranslate h msg (fst r')) ;;;
          ret r'
      | None => ret (false, msg)
      end
  end.

(** The two [for ... range] loops of [runPreTranslateHandler], which come
    before the window's own handler: the global handlers, then the handlers
    registered per window. *)
Definition registeredStages (msg : MSG) : Go (World E) (bool * MSG) :=
  app <- getApp ;;
  r <- runHandlers (globalPreTranslateHandlers app) msg ;;
  if fst r then ret r
  else
    perWindow <- rangeValues (perWindowPreTranslateHandlers app) ;;
    runHandlers perWindow (snd r).

(** The handler of the destination window, as the last stage of
    [runPreTranslateHandler] started on [msg] in [w] looks it up: when the
    registered handlers have all declined, it is the handler that the window
    of the message implements, for the message as those handlers left it and
    the windows as they are by then; the last stage is not reached
    otherwise. *)
Definition destinationHandler (msg : MSG) (w : World E) : list Handler :=
  match registeredStages msg w with
  | (Ret (false, m), w') => ownHandler m (ext (sys w'))
  | _ => []
  end.

(** The hooks leave the destination of a message and the walk windows as
    they are. *)
Definition hooksKeepDestination : Prop :=
  forall (h : Handler) (msg msg' : MSG) (handled : bool) (e e' : E),
    OnPreTranslate h msg e = (Ret (handled, msg'), e') ->
    HWnd msg' = HWnd msg /\
    (forall hwnd, windowFromHandle hwnd e' = windowFromHandle hwnd e).

(** The nesting depth of message loops. *)
Definition depth (w : World E) : Z := activeMessageLoops (appSingleton (sys w)).

(** How often [RunModal] has called [modal.Dispose()]. *)
Fixpoint disposals (tr : list event) : nat :=
  match tr with
  | [] => O
  | EvDispose :: tr' => S (disposals tr')
  | _ :: tr' => disposals tr'
  end.

(** The nesting depth and the number of disposals. *)
Definition depthAndDisposals (w : World E) : Z * nat :=
  (activeMessageLoops (appSingleton (sys w)), disposals (trace w)).

(** A call into the environment is balanced when, if it comes back (returning
    or panicking), the nesting depth is what it was at the call: whatever
    loops the call entered, it left. *)
Definition balanced {A} (m : Go (Sys E) A) : Prop :=
  forall s r s',
    validInt (activeMessageLoops (appSingleton s)) ->
    m s = (r, s') -> exits r = true ->
    activeMessageLoops (appSingleton s') = activeMessageLoops (appSingleton s).

Definition balancedModal (modal : Modal E) : Prop :=
  balanced (Dispose modal) /\
  (forall msg, balanced (modal_OnPreTranslate modal msg)) /\
  balanced (EnterMode modal) /\
  balanced (OwnerWindow modal) /\
  balanced (Running modal) /\
  (forall pd, modal_PostDispatch modal = Some pd -> balanced pd).

Definition balancedWin32 : Prop :=
  (forall msg, balanced (TranslateMessage msg)) /\
  (forall msg, balanced (DispatchMessage msg)) /\
  (forall msg code, balanced (CallMsgFilter msg code)) /\
  (forall hwnd enable, balanced (EnableWindow hwnd enable)) /\
  balanced waitForNextMessage.

(** A computation that, when it exits, has taken the nesting depth [d] to
    [f d] and has disposed the modal [dn] times. *)
Definition moves {A} (f : Z -> Z) (dn : nat) (m : Go (World E) A) : Prop :=
  forall w r w',
    validInt (depth w) ->
    m w = (r, w') -> exits r = true ->
    depth w' = f (depth w) /\ disposals (trace w') = (disposals (trace w) + dn)%nat.

(** A computation that, when it exits, has left the nesting depth and the
    disposals as they were. *)
Definition keeps {A} (m : Go (World E) A) : Prop := moves (fun d => d) 0 m.

(** [m2] does what [m1] does whenever [m1] does not run out of fuel. *)
Definition refines {W A} (m1 m2 : Go W A) : Prop :=
  forall w r w', m1 w = (r, w') -> r <> OutOfFuel -> m2 w = (r, w').

(** A computation that never ends in a panic. *)
Definition neverPanics {W A} (m : Go W A) : Prop :=
  forall w v, fst (m w) <> Panic v.

(** The environment's calls made by the top-level loop never panic. *)
Definition loopCallsNeverPanic : Prop :=
  (forall h msg e v, fst (OnPreTranslate h msg e) <> Panic v) /\
  (forall msg s v, fst (TranslateMessage msg s) <> Panic v) /\
  (forall msg s v, fst (DispatchMessage msg s) <> Panic v) /\
  (forall h s v, fst (OnPostDispatch h s) <> Panic v) /\
  (forall e v, fst (waitGroup_Wait e) <> Panic v).

(** The panic value of [AssertUIThread]. *)
Definition notTheUIThread : any := AString "walk: not the UI thread".

(** The claim that [Run], called on thread [tid] in [w], panics exactly
    when a message loop is active at entry. *)
Definition panicsIffLoopActive (tid : Z) (fuel : nat) (w : World E) : Prop :=
  (exists v, fst (Run tid fuel w) = Panic v) <->
  activeMessageLoops (appSingleton (sys w)) <> 0.

(** The claim that only the handler keyed to the destination of [msg] is
    offered [msg], among the handlers registered per window: every handler
    called by [runPreTranslateHandler] that is not a global one and not the
    window's own is the one registered for [HWnd msg]. *)
Definition onlyDestinationHookRuns (msg : MSG) (w : World E) : Prop :=
  forall (h : Handler) (handled : bool) (m : gmap Z Handler),
    perWindowPreTranslateHandlers (appSingleton (sys w)) = Some m ->
    (h, handled) ∈ hookCalls (drop (length (trace w))
                                   (trace (snd (runPreTranslateHandler msg w)))) ->
    h ∈ globalPreTranslateHandlers (appSingleton (sys w)) \/
    h ∈ ownHandler msg (ext (sys w)) \/
    m !! HWnd msg = Some h.

(** Nothing is queued on the bridge and no wake-up is posted. *)
Definition bridgeIdle (w : World E) : Prop :=
  syncFuncs (appSingleton (sys w)) = [] /\ wakeups w = O.

End Vocabulary.

Section FormVocabulary.
Context {E : Type} {rt : GoRuntime} {X : Externals E} {W32 : Win32 E} {FX : FormExternals E}.

(** A computation that always returns. *)
Definition returns {W A} (m : Go W A) : Prop :=
  forall w, exists a, fst (m w) = Ret a.

(** The calls of a form into its window, container, stopwatch and layout
    engine return. *)
Definition formCallsReturn : Prop :=
  (forall sz, returns (SetSizePixels sz)) /\
  returns Invalidate /\
  (forall sz, returns (clientComposite_SetBoundsPixels sz)) /\
  (forall sw, returns (stopwatch_Start sw)) /\
  (forall sw, returns (stopwatch_Stop sw)) /\
  (forall rs sw, returns (applyLayoutResults rs sw)).

(** What the owner thread's side of the hand-off rests on when
    [WM_WINDOWPOSCHANGED] arrives with a new size: the form has its channels
    and a layout and is not suspended, no layout is being started from the
    sizing loop already, the worker runs, offers nothing yet, and knows
    whether the owner is in the sizing loop. *)
Definition layoutReady (fw : FormWorld E) (wp : WINDOWPOS) : Prop :=
  performLayout (fb fw) = true /\
  hasLayout (fb fw) = true /\
  suspended (fb fw) = false /\
  startingLayoutViaSizingLoop (fb fw) = false /\
  Z.land (Flags wp) SWP_NOSIZE = 0 /\
  Z.land (Flags wp) SWP_SHOWWINDOW = 0 /\
  lp_alive (performer fw) = true /\
  lp_offer (performer fw) = None /\
  lp_sizing (performer fw) = inSizingLoop (fb fw).

(** A form world that differs from [fw] in the external state only. *)
Definition withExt (e : E) (fw : FormWorld E) : FormWorld E :=
  mkFormWorld (fb fw) (performer fw) (mkWorld (set_ext e (sys (world fw))) (trace (world fw))).

End FormVocabulary.

(** ** A small concrete environment

    An environment without external state in which every outside call
    returns at once: hooks decline every message, no window is a walk window,
    the runtime visits maps in the order of their entries.  The examples
    below run in it. *)

Definition plainRuntime : GoRuntime :=
  {| mapRange := fun _ _ l => l;
     mapRange_perm := fun _ _ l => reflexivity l |}.

Definition quietExternals : Externals unit :=
  {| callUser := fun _ => ret tt;
     OnPreTranslate := fun _ msg => ret (false, msg);
     windowFromHandle := fun _ _ => None;
     DefWindowProc := fun _ _ _ _ => ret 0;
     waitGroup_Wait := ret tt;
     applyLayoutResults := fun _ _ => ret tt;
     debug_Stack := fun _ => "goroutine 1 [running]"%string;
     InitCommonControlsEx := ret true;
     MustRegisterWindowClassWithWndProcPtr := ret tt;
     CreateWindowEx := ret 0x500;
     GetLastError := ret 0;
     NewToolTip := ret (Some 1%nat, None) |}.

Definition quietWin32 : Win32 unit :=
  {| TranslateMessage := fun _ => ret tt;
     DispatchMessage := fun _ => ret tt;
     OnPostDispatch := fun _ => ret tt;
     CallMsgFilter := fun _ _ => ret false;
     EnableWindow := fun _ _ => ret false;
     waitForNextMessage := ret tt |}.

(** The process right after the package's [init()] ran on thread 1. *)
Definition freshWorld : World unit :=
  mkWorld (mkSys (mkOnce 0 false) (zeroApplication 1) [] None 0 tt) [].

(** The process after [InitApp] succeeded on thread 1 in the small
    environment. *)
Definition readyWorld : World unit :=
  Eval vm_compute in snd (InitApp (X := quietExternals) 1 freshWorld).

(** Two goroutines submit a func each, then post their wake-ups; the UI
    thread delivers both. *)
Definition twoSubmissions : list action :=
  [DoSynchronizeLocked (Some (UserFunc 1)); DoSynchronizeLocked (Some (UserFunc 2));
   DoSynchronizePost; DoSynchronizePost; DoDeliver; DoDeliver].

Definition quietFormExternals : FormExternals unit :=
  {| clientSizeFromSizePixels := fun sz _ => sz;
     sizeFromClientSizePixels := fun sz _ => sz;
     MinSizeForSize := fun _ _ => mkSize 0 0;
     SetSizePixels := fun _ => ret tt;
     Invalidate := ret tt;
     clientComposite_SetBoundsPixels := fun _ => ret tt;
     stopwatch_Start := fun _ => ret tt;
     stopwatch_Stop := fun _ => ret tt;
     WindowBase_WndProc := fun _ _ _ _ => ret 0;
     computeLayout := fun sz _ => [Z.to_nat (Width sz); Z.to_nat (Height sz)] |}.

(** Three layout results: two for form 1, the second of them newer, and one
    for form 2 that carries two completion funcs. *)
Definition resultA : formLayoutResult :=
  mkFormLayoutResult 1 None (mkLayoutResults [10%nat] [Some (UserFunc 100)]).
Definition resultB : formLayoutResult :=
  mkFormLayoutResult 2 None (mkLayoutResults [20%nat] [Some (UserFunc 200); Some (UserFunc 201)]).
Definition resultA' : formLayoutResult :=
  mkFormLayoutResult 1 None (mkLayoutResults [11%nat] [Some (UserFunc 101)]).

(** The initialised process with handler 31 registered for window 5. *)
Definition hookedWorld : World unit :=
  Eval vm_compute in
    snd (AddPreTranslateHandlerForHWND (E := unit) 1 5 (Some 31%nat) readyWorld).

(** A key-down message for window 7. *)
Definition msgForWindow7 : MSG := mkMSG 7 0x100 0 0.

(** The initialised process with one message posted and a modal loop
    already running (nesting depth 1). *)
Definition busyWorld : World unit :=
  mkWorld (mkSys (appOnce (sys readyWorld))
                 (set_activeMessageLoops 1 (appSingleton (sys readyWorld)))
                 [msgForWindow7] None 0 tt) [].

(** The small environment with one walk window: window 7, whose type
    implements [PreTranslateHandler] as handler 70. *)
Definition walkWindowExternals : Externals unit :=
  {| callUser := fun _ => ret tt;
     OnPreTranslate := fun _ msg => ret (false, msg);
     windowFromHandle := fun hwnd _ =>
       if hwnd =? 7 then Some (mkWindow 7 (Some 70%nat) None) else None;
     DefWindowProc := fun _ _ _ _ => ret 0;
     waitGroup_Wait := ret tt;
     applyLayoutResults := fun _ _ => ret tt;
     debug_Stack := fun _ => "goroutine 1 [running]"%string;
     InitCommonControlsEx := ret true;
     MustRegisterWindowClassWithWndProcPtr := ret tt;
     CreateWindowEx := ret 0x500;
     GetLastError := ret 0;
     NewToolTip := ret (Some 1%nat, None) |}.

(** The small environment with hooks that panic. *)
Definition faultyHookExternals : Externals unit :=
  {| callUser := fun _ => ret tt;
     OnPreTranslate := fun _ _ => panic (AString "hook failed");
     windowFromHandle := fun _ _ => None;
     DefWindowProc := fun _ _ _ _ => ret 0;
     waitGroup_Wait := ret tt;
     applyLayoutResults := fun _ _ => ret tt;
     debug_Stack := fun _ => "goroutine 1 [running]"%string;
     InitCommonControlsEx := ret true;
     MustRegisterWindowClassWithWndProcPtr := ret tt;
     CreateWindowEx := ret 0x500;
     GetLastError := ret 0;
     NewToolTip := ret (Some 1%nat, None) |}.

(** The process of [hookedWorld] with the global handler 11 added. *)
Definition chainedWorld : World unit :=
  Eval vm_compute in
    snd (AddGlobalPreTranslateHandler (E := unit) 1 (Some 11%nat) hookedWorld).

(** The same process with the message for window 7 posted; no message loop
    is running. *)
Definition pendingWorld : World unit :=
  mkWorld (set_queue [msgForWindow7] (sys chainedWorld)) [].

(** A modal without owner window whose methods return at once, except that
    [Running] gives [running] and [OnPreTranslate] is [pre]. *)
Definition simpleModal (running : bool) (pre : MSG -> Go (Sys unit) (bool * MSG)) : Modal unit :=
  mkModal (ret tt) pre (ret tt) (ret None) (ret running) None.

(** A modal whose pre-translate hook panics. *)
Definition faultyModal : Modal unit :=
  simpleModal true (fun _ => panic (AString "hook failed")).

(** A form in the sizing loop, and the same form outside it, each with its
    worker, in the initialised process. *)
Definition sizingForm : FormWorld unit :=
  mkFormWorld (mkFormBase 1 None true (mkSize 0 0) true false true false)
              (mkLayoutPerformer true true None None) readyWorld.

Definition restingForm : FormWorld unit :=
  mkFormWorld (mkFormBase 1 None true (mkSize 0 0) false false true false)
              (mkLayoutPerformer true false None None) readyWorld.

Definition resized : WINDOWPOS := mkWINDOWPOS 0 640 480.

(** * Properties *)

Lemma int32_small (x : Z) : - 2 ^ 31 <= x < 2 ^ 31 -> int32 x = x.
Proof.
  intros H. unfold int32. rewrite Z.mod_small; lia.
Qed.

Section OnceGuard.
Context {E : Type} {rt : GoRuntime} {X : Externals E} {W32 : Win32 E}.

(** With the guard already set, [Init] runs nothing. *)
Lemma Init_after_init {A} (f : Go (World E) A) (w : World E) :
  init (appOnce (sys w)) <> 0 -> Init f w = (Ret None, w).
Proof.
  intros Hne. unfold Init, bind, getOnce.
  destruct (Z.eqb_spec (init (appOnce (sys w))) 0); [contradiction | reflexivity].
Qed.

(** C10.  When [App()] is called before [InitApp] (the guard clear, its mutex
    free), [App()] panics, yet the deferred store marks the guard as
    initialised and the mutex is released; the singleton is left as it was.
    From then on [InitApp], on any thread, runs no initialisation: it changes
    nothing and returns the singleton with a nil error. *)
Theorem App_before_InitApp_marks_once (w : World E) (tid : Z) :
  init (appOnce (sys w)) = 0 ->
  mu (appOnce (sys w)) = false ->
  let w1 := mkWorld (set_appOnce (mkOnce 1 false) (sys w)) (trace w) in
  App w = (Panic (AString "walk.InitApp must be called first"), w1) /\
  appSingleton (sys w1) = appSingleton (sys w) /\
  InitApp tid w1 = (Ret (refAppSingleton, None), w1).
Proof.
  intros Hinit Hmu w1. split; [| split].
  - unfold App, Init, initSlow, bind, getOnce, mu_Lock, defer, mu_Unlock,
      StoreUint32_init, panic. cbn.
    rewrite Hinit. cbn. rewrite Hmu. cbn. rewrite Hinit. cbn. reflexivity.
  - reflexivity.
  - unfold InitApp, bind. rewrite Init_after_init by (cbn; lia). reflexivity.
Qed.

End OnceGuard.


(** ** The fault-isolation boundary *)

Section Boundary.
Context {E : Type} {X : Externals E}.

Lemma HandlePanicFromNativeCallback_no_panic (w : World E) :
  HandlePanicFromNativeCallback None w = (Ret tt, w).
Proof. reflexivity. Qed.

Lemma HandlePanicFromNativeCallback_panic (x : any) (w : World E) :
  HandlePanicFromNativeCallback (Some x) w = (Block, reraised x w).
Proof. reflexivity. Qed.

(** C6.  For a call [body] made under a deferred
    [HandlePanicFromNativeCallback]: when [body] returns, the boundary does
    nothing and the call returns what [body] returned; when [body] panics with
    [x], a new goroutine panics with the [redirectedPanicError] holding [x] and
    the stack reported at the recovery, the state is otherwise as the panic
    left it, and the calling goroutine blocks; so the call leaves (returns or
    unwinds) only when [body] returned. *)
Theorem boundary_redirects_panics {A} (body : Go (World E) A) (zero : A) (w : World E) :
  let wrapped := deferRecover HandlePanicFromNativeCallback zero body in
  (forall a w', body w = (Ret a, w') -> wrapped w = (Ret a, w')) /\
  (forall x w', body w = (Panic x, w') -> wrapped w = (Block, reraised x w')) /\
  (forall r w', wrapped w = (r, w') -> exits r = true -> exists a, body w = (Ret a, w') /\ r = Ret a).
Proof.
  cbn zeta. unfold deferRecover. split; [| split].
  - intros a w' ->. reflexivity.
  - intros x w' ->. reflexivity.
  - intros r w'. destruct (body w) as [[a | x | |] w1]; cbn; intros [= <- <-]; cbn;
      try discriminate. intros _. eauto.
Qed.

(** The error text of the re-raised fault is the message of the original
    panic value, a newline, and the captured stack; [Unwrap] gives the
    original value back when it is an error. *)
Lemma redirectedPanicError_Error_string (s stack : string) :
  redirectedPanicError_Error (AString s) stack = String.append s (String.append newline stack).
Proof. reflexivity. Qed.

Lemma redirectedPanicError_Unwrap_error (m : string) :
  redirectedPanicError_Unwrap (AError m) = Some (AError m).
Proof. reflexivity. Qed.

End Boundary.

(** ** The bridge: Synchronize *)

Section BridgeFuncs.
Context {E : Type} {rt : GoRuntime} {X : Externals E} {W32 : Win32 E}.

Lemma executed_app (t1 t2 : list event) : executed (t1 ++ t2) = executed t1 ++ executed t2.
Proof.
  induction t1 as [| ev t1 IH]; [reflexivity |].
  destruct ev; cbn; rewrite ?IH; reflexivity.
Qed.

Lemma runThreads_app (t1 t2 : list event) : runThreads (t1 ++ t2) = runThreads t1 ++ runThreads t2.
Proof.
  induction t1 as [| ev t1 IH]; [reflexivity |].
  destruct ev; cbn; rewrite ?IH; reflexivity.
Qed.

Lemma runThreads_length (t : list event) : length (runThreads t) = length (executed t).
Proof.
  induction t as [| ev t IH]; [reflexivity |].
  destruct ev; cbn; rewrite ?IH; reflexivity.
Qed.

(** *** Computations that leave the func queue alone *)

Lemma bridgeStable_ret {A} (a : A) : bridgeStable (ret (W := World E) a).
Proof. intros w. reflexivity. Qed.

Lemma bridgeStable_panic {A} (v : any) : bridgeStable (panic (W := World E) (A := A) v).
Proof. intros w. reflexivity. Qed.

Lemma bridgeStable_bind {A B} (m : Go (World E) A) (k : A -> Go (World E) B) :
  bridgeStable m -> (forall a, bridgeStable (k a)) -> bridgeStable (bind m k).
Proof.
  intros Hm Hk w. unfold bind. specialize (Hm w).
  destruct (m w) as [[a | v | |] w1]; cbn in *; try exact Hm.
  rewrite Hk. exact Hm.
Qed.

Lemma bridgeStable_external {A} (m : Go E A) : bridgeStable (external m).
Proof.
  intros w. unfold external, liftS, liftE. destruct (m (ext (sys w))) as [r e]. reflexivity.
Qed.

Lemma bridgeStable_getApp : bridgeStable (getApp (E := E)).
Proof. intros w. reflexivity. Qed.

Lemma bridgeStable_emit (ev : event) :
  (forall c t, ev <> EvRun c t) -> bridgeStable (emit (E := E) ev).
Proof.
  intros Hev w. unfold bridgeView, emit. cbn. rewrite executed_app, runThreads_app.
  destruct ev; cbn; rewrite ?app_nil_r; try reflexivity.
  exfalso. eapply Hev. reflexivity.
Qed.

Lemma bridgeStable_PostQuitMessage (code : Z) : bridgeStable (PostQuitMessage (E := E) code).
Proof.
  intros w. unfold bridgeView, PostQuitMessage. cbn. rewrite executed_app, runThreads_app.
  cbn. rewrite !app_nil_r. reflexivity.
Qed.

Lemma bridgeStable_callFunc (fn : func) : bridgeStable (callFunc fn).
Proof.
  destruct fn as [[code | id] |]; cbn.
  - apply bridgeStable_PostQuitMessage.
  - apply bridgeStable_external.
  - apply bridgeStable_panic.
Qed.

Lemma bridgeStable_forEach {A} (xs : list A) (f : A -> Go (World E) unit) :
  (forall x, bridgeStable (f x)) -> bridgeStable (forEach xs f).
Proof.
  intros Hf. induction xs as [| x xs IH]; cbn.
  - apply bridgeStable_ret.
  - apply bridgeStable_bind; [apply Hf | intros _; exact IH].
Qed.

Lemma bridgeStable_rangeValues {K V} `{Countable K} (m : option (gmap K V)) :
  bridgeStable (rangeValues (E := E) m).
Proof. intros w. reflexivity. Qed.

Lemma bridgeStable_set_layoutResultsByForm (v : option (gmap nat formLayoutResult)) :
  bridgeStable (modifyApp (E := E) (set_layoutResultsByForm v)).
Proof. intros w. unfold bridgeView, modifyApp. cbn. destruct (appSingleton (sys w)). reflexivity. Qed.

Lemma bridgeStable_runSyncLayout : bridgeStable runSyncLayout.
Proof.
  unfold runSyncLayout.
  apply bridgeStable_bind; [apply bridgeStable_getApp | intros app].
  apply bridgeStable_bind; [apply bridgeStable_rangeValues | intros lrs].
  apply bridgeStable_bind; [apply bridgeStable_set_layoutResultsByForm | intros _].
  apply bridgeStable_bind; [| intros _].
  - apply bridgeStable_forEach. intros lr.
    apply bridgeStable_bind; [apply bridgeStable_emit; discriminate | intros _].
    apply bridgeStable_external.
  - apply bridgeStable_forEach. intros lr. apply bridgeStable_forEach. intros fn.
    apply bridgeStable_bind; [apply bridgeStable_emit; discriminate | intros _].
    apply bridgeStable_callFunc.
Qed.

Lemma bridgeStable_boundary {A} (body : Go (World E) A) (zero : A) :
  bridgeStable body -> bridgeStable (deferRecover HandlePanicFromNativeCallback zero body).
Proof.
  intros Hb w. unfold deferRecover. specialize (Hb w).
  destruct (body w) as [[a | v | |] w1]; cbn in *; try exact Hb.
  rewrite <- Hb. unfold bridgeView. cbn. rewrite executed_app, runThreads_app. cbn.
  rewrite !app_nil_r. reflexivity.
Qed.

(** *** The steps of an interleaving *)

Lemma callable_app (l1 l2 : list func) : callable (l1 ++ l2) = callable l1 ++ callable l2.
Proof. apply omap_app. Qed.

Lemma submitted_cons (a : action) (acts : list action) :
  submitted (a :: acts) = submitted [a] ++ submitted acts.
Proof. destruct a; reflexivity. Qed.

(** [runSyncFunc] with a func queued: the front of the queue is removed and,
    unless it is nil, called on the thread at hand; nothing else of the
    bridge changes. *)
Lemma runSyncFunc_front (tid : Z) (w : World E) (fn : func) (rest : list func) :
  syncFuncs (appSingleton (sys w)) = fn :: rest ->
  bridgeView (snd (runSyncFunc tid w)) =
    (rest, queue (sys w), executed (trace w) ++ callable [fn],
     runThreads (trace w) ++ repeat tid (length (callable [fn])),
     (msgWindow (appSingleton (sys w)), syncFuncMsg (appSingleton (sys w)),
      uiThreadID (appSingleton (sys w)))).
Proof.
  intros Hq. unfold runSyncFunc, bind, getApp, modifyApp. cbn. rewrite Hq. cbn.
  set (w1 := mkWorld _ _).
  assert (Hw1 : bridgeView w1 =
                (rest, queue (sys w), executed (trace w), runThreads (trace w),
                 (msgWindow (appSingleton (sys w)), syncFuncMsg (appSingleton (sys w)),
                  uiThreadID (appSingleton (sys w))))).
  { subst w1. unfold bridgeView. cbn. destruct (appSingleton (sys w)). reflexivity. }
  destruct fn as [c |]; cbn.
  - etransitivity; [exact (bridgeStable_callFunc (Some c) _) |].
    unfold bridgeView. cbn. rewrite executed_app, runThreads_app.
    destruct (appSingleton (sys w)). reflexivity.
  - rewrite Hw1, !app_nil_r. reflexivity.
Qed.

Lemma runSyncFunc_empty (tid : Z) (w : World E) :
  syncFuncs (appSingleton (sys w)) = [] -> runSyncFunc tid w = (Ret tt, w).
Proof. intros Hq. unfold runSyncFunc, bind, getApp. cbn. rewrite Hq. reflexivity. Qed.

(** A call through the boundary that returns is a call whose body returned. *)
Lemma boundary_returns {A} (body : Go (World E) A) (zero : A) (w w' : World E) (k k' : nat) :
  normally (deferRecover HandlePanicFromNativeCallback zero body w) k = Some (w', k') ->
  exists a, body w = (Ret a, w') /\ k' = k.
Proof.
  unfold deferRecover, normally.
  destruct (body w) as [[a | v | |] w1]; cbn; intros [= <- <-]. eauto.
Qed.

(** Delivering a wake-up pops exactly the front of a non-empty queue. *)
Lemma deliver_wakeup (tid : Z) (hwnd : HWND) (wParam lParam : Z) (w w' : World E) (k k' : nat)
    (fn : func) (rest : list func) :
  syncFuncs (appSingleton (sys w)) = fn :: rest ->
  normally (appMsgWndProc tid hwnd (syncFuncMsg (appSingleton (sys w))) wParam lParam w) k
    = Some (w', k') ->
  k' = k /\
  bridgeView w' =
    (rest, queue (sys w), executed (trace w) ++ callable [fn],
     runThreads (trace w) ++ repeat tid (length (callable [fn])),
     (msgWindow (appSingleton (sys w)), syncFuncMsg (appSingleton (sys w)),
      uiThreadID (appSingleton (sys w)))).
Proof.
  intros Hq Hret. unfold appMsgWndProc in Hret.
  apply boundary_returns in Hret as (a & Hbody & ->). split; [reflexivity |].
  unfold bind at 1, getApp in Hbody. cbn in Hbody. rewrite Z.eqb_refl in Hbody.
  unfold bind in Hbody.
  pose proof (runSyncFunc_front tid w fn rest Hq) as Hv.
  destruct (runSyncFunc tid w) as [[[] | v | |] w1]; cbn in *; try discriminate.
  injection Hbody as _ <-. exact Hv.
Qed.

(** Delivering any other message leaves the func queue alone. *)
Lemma deliver_other (tid : Z) (hwnd : HWND) (msg wParam lParam : Z) (w w' : World E) (k k' : nat) :
  msg <> syncFuncMsg (appSingleton (sys w)) ->
  normally (appMsgWndProc tid hwnd msg wParam lParam w) k = Some (w', k') ->
  k' = k /\ bridgeView w' = bridgeView w.
Proof.
  intros Hne Hret. unfold appMsgWndProc in Hret.
  apply boundary_returns in Hret as (a & Hbody & ->). split; [reflexivity |].
  unfold bind at 1, getApp in Hbody. cbn in Hbody.
  destruct (Z.eqb_spec msg (syncFuncMsg (appSingleton (sys w)))); [contradiction |].
  destruct (msg =? syncLayoutMsg (appSingleton (sys w))).
  - pose proof (bridgeStable_bind runSyncLayout (fun _ => ret 0)
                  bridgeStable_runSyncLayout (fun _ => bridgeStable_ret 0) w) as Hst.
    rewrite Hbody in Hst. exact Hst.
  - pose proof (bridgeStable_external (DefWindowProc hwnd msg wParam lParam) w) as Hst.
    rewrite Hbody in Hst. exact Hst.
Qed.

Lemma bridgeView_fields (w : World E) fs q ex th mw sm ui :
  bridgeView w = (fs, q, ex, th, (mw, sm, ui)) ->
  syncFuncs (appSingleton (sys w)) = fs /\ queue (sys w) = q /\
  executed (trace w) = ex /\ runThreads (trace w) = th /\
  msgWindow (appSingleton (sys w)) = mw /\ syncFuncMsg (appSingleton (sys w)) = sm /\
  uiThreadID (appSingleton (sys w)) = ui.
Proof. unfold bridgeView. intros H. repeat split; congruence. Qed.

Lemma countWakeups_app (app : Application) (q1 q2 : list MSG) :
  countWakeups app (q1 ++ q2) = (countWakeups app q1 + countWakeups app q2)%nat.
Proof. induction q1 as [| m q1 IH]; cbn; [reflexivity | rewrite IH; lia]. Qed.

Lemma countWakeups_addr (app app' : Application) (q : list MSG) :
  msgWindow app' = msgWindow app -> syncFuncMsg app' = syncFuncMsg app ->
  countWakeups app' q = countWakeups app q.
Proof.
  intros Hw Hm. induction q as [| m q IH]; cbn; [reflexivity |].
  unfold isSyncFuncMessage. rewrite Hw, Hm, IH. reflexivity.
Qed.

Lemma wakeups_eq (w w' : World E) :
  queue (sys w') = queue (sys w) ->
  msgWindow (appSingleton (sys w')) = msgWindow (appSingleton (sys w)) ->
  syncFuncMsg (appSingleton (sys w')) = syncFuncMsg (appSingleton (sys w)) ->
  wakeups w' = wakeups w.
Proof. unfold wakeups. intros -> Hw Hm. apply countWakeups_addr; assumption. Qed.

Lemma step_spec (a : action) (w w' : World E) (k k' : nat) :
  step a (w, k) = Some (w', k') ->
  bridgeInv w k ->
  bridgeInv w' k' /\ stepEffect a w w'.
Proof.
  unfold step, stepEffect. intros Hstep Hinv. destruct a as [fn | | msg wParam lParam |].
  - (* the critical section of Synchronize *)
    cbn in Hstep. injection Hstep as <- <-.
    unfold bridgeInv, wakeups in *. cbn.
    rewrite (countWakeups_addr (appSingleton (sys w))) by (destruct (appSingleton (sys w)); reflexivity).
    destruct (appSingleton (sys w)); cbn in *.
    rewrite length_app. cbn. repeat split; try lia.
    exists []. cbn. rewrite !app_nil_r. auto.
  - (* the wake-up *)
    destruct k as [| k0]; [discriminate |]. cbn in Hstep. injection Hstep as <- <-.
    unfold bridgeInv, wakeups in *. cbn -[countWakeups].
    rewrite countWakeups_app. cbn. unfold isSyncFuncMessage. cbn. rewrite !Z.eqb_refl. cbn.
    repeat split; try lia.
    exists []. cbn. rewrite !app_nil_r. auto.
  - (* some other message *)
    destruct (Z.eqb_spec msg (syncFuncMsg (appSingleton (sys w)))) as [| Hne]; [discriminate |].
    cbn in Hstep. injection Hstep as <- <-.
    unfold bridgeInv, wakeups in *. cbn -[countWakeups].
    rewrite countWakeups_app. cbn. unfold isSyncFuncMessage. cbn.
    apply Z.eqb_neq in Hne. rewrite Hne, andb_false_r. cbn.
    repeat split; try lia.
    exists []. cbn. rewrite !app_nil_r. auto.
  - (* delivery *)
    destruct (queue (sys w)) as [| m q] eqn:Hq; [discriminate |].
    destruct (Z.eqb_spec (HWnd m) (msgWindow (appSingleton (sys w)))) as [Hh |]; [| discriminate].
    set (w1 := mkWorld (set_queue q (sys w)) (trace w)) in *.
    destruct (Z.eqb_spec (Message m) (syncFuncMsg (appSingleton (sys w)))) as [Hm | Hm].
    + (* a wake-up *)
      assert (Hw : wakeups w = S (wakeups w1)).
      { unfold wakeups. rewrite Hq. subst w1. cbn.
        unfold isSyncFuncMessage. rewrite Hh, Hm, !Z.eqb_refl. reflexivity. }
      destruct (syncFuncs (appSingleton (sys w))) as [| fn rest] eqn:Hfs.
      { unfold bridgeInv in Hinv. rewrite Hw, Hfs in Hinv. simpl length in Hinv. lia. }
      rewrite Hm in Hstep.
      apply (deliver_wakeup _ _ _ _ w1 w' k k' fn rest) in Hstep; [| exact Hfs].
      destruct Hstep as [-> Hv].
      apply bridgeView_fields in Hv as (Hf & Hq' & Hex & Hth & Hmw & Hsm & Hui).
      split.
      * unfold bridgeInv in *. rewrite Hf.
        rewrite (wakeups_eq w1 w') by (subst w1; cbn in *; congruence).
        rewrite Hw, Hfs in Hinv. simpl length in Hinv. lia.
      * subst w1. cbn in *. repeat split; try congruence.
        exists [fn]. rewrite Hf, Hex, Hth. cbn. rewrite app_nil_r. auto.
    + (* any other message *)
      apply (deliver_other _ _ _ _ _ w1 w' k k') in Hstep; [| exact Hm].
      destruct Hstep as [-> Hv]. symmetry in Hv.
      apply bridgeView_fields in Hv as (Hf & Hq' & Hex & Hth & Hmw & Hsm & Hui).
      assert (Hw : wakeups w = wakeups w1).
      { unfold wakeups. rewrite Hq. subst w1. cbn.
        unfold isSyncFuncMessage. apply Z.eqb_neq in Hm. rewrite Hm, andb_false_r. reflexivity. }
      split.
      * unfold bridgeInv in *. rewrite <- Hf.
        rewrite <- (wakeups_eq w' w1) by (subst w1; cbn in *; congruence).
        rewrite <- Hw. subst w1. cbn. exact Hinv.
      * subst w1. cbn in *. repeat split; try congruence.
        exists []. cbn. rewrite !app_nil_r. auto.
Qed.

Lemma runSchedule_spec (acts : list action) :
  forall (w w' : World E) (k k' : nat),
    runSchedule acts (w, k) = Some (w', k') ->
    bridgeInv w k ->
    bridgeInv w' k' /\
    uiThreadID (appSingleton (sys w')) = uiThreadID (appSingleton (sys w)) /\
    exists done : list func,
      syncFuncs (appSingleton (sys w)) ++ submitted acts
        = done ++ syncFuncs (appSingleton (sys w')) /\
      executed (trace w') = executed (trace w) ++ callable done /\
      runThreads (trace w') =
        runThreads (trace w) ++ repeat (uiThreadID (appSingleton (sys w))) (length (callable done)).
Proof.
  induction acts as [| a acts IH]; intros w w' k k' Hrun Hinv.
  - cbn in Hrun. injection Hrun as <- <-. repeat split; [exact Hinv |].
    exists []. cbn. rewrite !app_nil_r. auto.
  - cbn [runSchedule] in Hrun.
    destruct (step a (w, k)) as [[w1 k1] |] eqn:Hstep; [| discriminate].
    destruct (step_spec a w w1 k k1 Hstep Hinv) as (Hinv1 & _ & _ & Hui1 & popped & Hp & Hex1 & Hth1).
    destruct (IH w1 w' k1 k' Hrun Hinv1) as (Hinv' & Hui' & done & Hd & Hex' & Hth').
    split; [exact Hinv' |]. split; [congruence |].
    exists (popped ++ done). rewrite submitted_cons, callable_app, length_app, repeat_app.
    repeat split.
    + rewrite app_assoc, Hp, <- !app_assoc. f_equal. exact Hd.
    + rewrite Hex', Hex1, <- app_assoc. reflexivity.
    + rewrite Hth', Hth1, Hui1, <- app_assoc. reflexivity.
Qed.

(** C1.  Start with nothing queued on the bridge and follow any
    interleaving of [Synchronize] calls (each in its two halves), other
    messages posted to the message window, and deliveries by the UI thread's
    loop, every step of which returned.  Then:
    - the closures called so far are the non-nil funcs of a prefix of the
      submissions, in submission order, each called once, and every call was
      made on the UI thread; the rest of the submissions is still queued;
    - delivering a wake-up from here pops exactly the front of the queue and
      calls it (when not nil), nothing more;
    - once no goroutine is between the halves and no wake-up is left in the
      message queue, every submitted func has been called exactly once. *)
Theorem Synchronize_runs_each_func_once_in_order
    (acts : list action) (w0 w : World E) (k : nat) :
  bridgeIdle w0 ->
  runSchedule acts (w0, O) = Some (w, k) ->
  let ui := uiThreadID (appSingleton (sys w0)) in
  (exists done : list func,
     submitted acts = done ++ syncFuncs (appSingleton (sys w)) /\
     executed (trace w) = executed (trace w0) ++ callable done /\
     runThreads (trace w) = runThreads (trace w0) ++ repeat ui (length (callable done))) /\
  (forall (m : MSG) (q : list MSG) (w' : World E) (k' : nat),
     queue (sys w) = m :: q ->
     isSyncFuncMessage (appSingleton (sys w)) m = true ->
     step DoDeliver (w, k) = Some (w', k') ->
     exists fn : func,
       syncFuncs (appSingleton (sys w)) = fn :: syncFuncs (appSingleton (sys w')) /\
       executed (trace w') = executed (trace w) ++ callable [fn] /\
       runThreads (trace w') = runThreads (trace w) ++ repeat ui (length (callable [fn]))) /\
  (k = O -> wakeups w = O ->
     syncFuncs (appSingleton (sys w)) = [] /\
     executed (trace w) = executed (trace w0) ++ callable (submitted acts)).
Proof.
  intros [Hfs0 Hwk0] Hrun ui.
  assert (Hinv0 : bridgeInv w0 O) by (unfold bridgeInv; rewrite Hfs0, Hwk0; reflexivity).
  destruct (runSchedule_spec acts w0 w O k Hrun Hinv0) as (Hinv & Hui & done & Hd & Hex & Hth).
  rewrite Hfs0 in Hd. cbn in Hd.
  split; [| split].
  - exists done. auto.
  - intros m q w' k' Hq Hm Hstep.
    destruct (step_spec DoDeliver w w' k k' Hstep Hinv) as (_ & _ & _ & _ & popped & Hp & Hex' & Hth').
    cbn in Hp. rewrite app_nil_r in Hp.
    (* a wake-up is at the head, so the queue of funcs is not empty and loses its head *)
    assert (Hne : exists fn rest, syncFuncs (appSingleton (sys w)) = fn :: rest).
    { unfold bridgeInv, wakeups in Hinv. rewrite Hq in Hinv. cbn in Hinv. rewrite Hm in Hinv.
      destruct (syncFuncs (appSingleton (sys w))) as [| fn rest]; [cbn in Hinv; lia | eauto]. }
    destruct Hne as (fn & rest & Hfs).
    unfold step in Hstep. rewrite Hq in Hstep.
    unfold isSyncFuncMessage in Hm. apply andb_prop in Hm as [Hh Hmsg].
    rewrite Hh in Hstep. apply Z.eqb_eq in Hmsg. rewrite Hmsg in Hstep.
    apply (deliver_wakeup _ _ _ _ (mkWorld (set_queue q (sys w)) (trace w)) w' k k' fn rest)
      in Hstep; [| exact Hfs].
    destruct Hstep as [_ Hv].
    apply bridgeView_fields in Hv as (Hf & _ & Hex2 & Hth2 & _ & _ & _).
    exists fn. cbn in *. rewrite Hf, Hfs, Hex2, Hth2. unfold ui. rewrite <- Hui. auto.
  - intros -> Hwk. unfold bridgeInv in Hinv. rewrite Hwk in Hinv. cbn in Hinv.
    destruct (syncFuncs (appSingleton (sys w))) as [| fn rest]; [| discriminate].
    rewrite app_nil_r in Hd. subst done. auto.
Qed.

End BridgeFuncs.


(** ** Exit *)

Section ExitOnce.
Context {E : Type} {rt : GoRuntime} {X : Externals E} {W32 : Win32 E}.

Lemma Exit_when_exiting (tid exitCode : Z) (w : World E) :
  exiting (appSingleton (sys w)) = true -> Exit tid exitCode w = (Ret tt, w).
Proof. intros Hex. unfold Exit, bind, getApp. cbn. rewrite Hex. reflexivity. Qed.

Lemma exitAll_when_exiting (calls : list (Z * Z)) (w : World E) :
  exiting (appSingleton (sys w)) = true -> exitAll calls w = (Ret tt, w).
Proof.
  intros Hex. unfold exitAll. induction calls as [| [tid c] calls IH]; [reflexivity |].
  cbn. unfold bind. rewrite Exit_when_exiting by exact Hex. exact IH.
Qed.

(** C7.  Let [Exit] be called any number of times, the first call on thread
    [tid] with code [c], on an initialised application that is not exiting
    yet.  All the calls together do what the first call alone does: the later
    ones change nothing.  The first call sets the flag, cancels the context
    once and, on the UI thread, posts the quit message once; on any other
    thread it posts nothing itself but hands [postQuitMsg] to [Synchronize]
    (the closure is appended to the func queue and one wake-up is posted), and
    when the UI thread delivers that wake-up the quit message is posted,
    once.  The quit message carries [int32(c)], which is [c] itself for every
    code of the 32-bit range. *)
Theorem Exit_only_first_call_counts
    (w : World E) (tid c : Z) (later : list (Z * Z)) (b : bool) :
  exiting (appSingleton (sys w)) = false ->
  ctx (appSingleton (sys w)) = Some b ->
  let app := appSingleton (sys w) in
  exitAll ((tid, c) :: later) w = Exit tid c w /\
  (exists w1 : World E,
     Exit tid c w = (Ret tt, w1) /\
     exiting (appSingleton (sys w1)) = true /\
     ctx (appSingleton (sys w1)) = Some true /\
     if IsUIThread tid app then
       trace w1 = trace w ++ [EvCtxCancel; EvPostQuitMessage (int32 c)] /\
       quit (sys w1) = Some (int32 c) /\
       syncFuncs (appSingleton (sys w1)) = syncFuncs app /\
       queue (sys w1) = queue (sys w)
     else
       trace w1 = trace w ++ [EvCtxCancel] /\
       quit (sys w1) = quit (sys w) /\
       syncFuncs (appSingleton (sys w1)) = syncFuncs app ++ [Some (PostQuitMsg c)] /\
       queue (sys w1) = queue (sys w) ++ [mkMSG (msgWindow app) (syncFuncMsg app) 0 0] /\
       (syncFuncs app = [] -> queue (sys w) = [] ->
        exists w2 : World E,
          step DoDeliver (w1, O) = Some (w2, O) /\
          trace w2 = trace w ++ [EvCtxCancel; EvRun (PostQuitMsg c) (uiThreadID app);
                                 EvPostQuitMessage (int32 c)] /\
          quit (sys w2) = Some (int32 c) /\
          syncFuncs (appSingleton (sys w2)) = [] /\
          queue (sys w2) = [])) /\
  (- 2 ^ 31 <= c < 2 ^ 31 -> int32 c = c).
Proof.
  intros Hex Hctx app.
  assert (Hfirst : exists w1, Exit tid c w = (Ret tt, w1) /\ exiting (appSingleton (sys w1)) = true).
  { unfold Exit, bind, getApp, modifyApp, ctxCancel, getApp, emit. cbn. rewrite Hex. cbn.
    destruct (appSingleton (sys w)) eqn:Happ. cbn in *. subst ctx0. cbn.
    destruct (IsUIThread tid _); cbn; eexists; split; reflexivity. }
  split; [| split; [| apply int32_small]].
  - destruct Hfirst as (w1 & Hw1 & Hex1).
    change (exitAll ((tid, c) :: later) w) with (bind (Exit tid c) (fun _ => exitAll later) w).
    unfold bind. rewrite Hw1. apply (exitAll_when_exiting later w1 Hex1).
  - clear Hfirst.
    unfold Exit, bind, getApp, modifyApp, ctxCancel, getApp, emit. cbn. rewrite Hex. cbn.
    subst app. destruct (appSingleton (sys w)) eqn:Happ. cbn in *. subst ctx0. cbn.
    unfold IsUIThread. cbn.
    destruct (tid =? uiThreadID0) eqn:Hui; cbn.
    + eexists. split; [reflexivity |]. cbn. rewrite <- app_assoc. repeat split.
    + eexists. split; [reflexivity |]. cbn. repeat split.
      intros -> Hq. rewrite Hq. cbn.
      unfold step. cbn. rewrite !Z.eqb_refl. cbn.
      unfold appMsgWndProc, deferRecover, bind, getApp, runSyncFunc, bind, getApp, modifyApp, emit.
      cbn. rewrite !Z.eqb_refl. cbn.
      eexists. split; [reflexivity |]. cbn. rewrite <- !app_assoc. repeat split.
Qed.

End ExitOnce.


(** ** The bridge: layout results *)

Section LayoutBridge.
Context {E : Type} {rt : GoRuntime} {X : Externals E} {W32 : Win32 E}.

Lemma layoutEvents_app (t1 t2 : list event) :
  layoutEvents (t1 ++ t2) = layoutEvents t1 ++ layoutEvents t2.
Proof.
  induction t1 as [| ev t1 IH]; [reflexivity |].
  destruct ev; cbn; rewrite ?IH; reflexivity.
Qed.

(** *** Events added by the parts of [runSyncLayout] *)

Lemma layoutTraced_silent {A} (m : Go (World E) A) :
  (forall w, layoutEvents (trace (snd (m w))) = layoutEvents (trace w)) ->
  layoutTraced m [].
Proof.
  intros Hm w. exists O. rewrite Hm. cbn. rewrite app_nil_r. auto.
Qed.

Lemma layoutTraced_ret {A} (a : A) : layoutTraced (ret (W := World E) a) [].
Proof. apply layoutTraced_silent. reflexivity. Qed.

Lemma layoutTraced_external {A} (m : Go E A) : layoutTraced (external m) [].
Proof.
  apply layoutTraced_silent. intros w. unfold external, liftS, liftE.
  destruct (m (ext (sys w))). reflexivity.
Qed.

Lemma layoutTraced_callFunc (fn : func) : layoutTraced (callFunc fn) [].
Proof.
  destruct fn as [[code | id] |]; cbn.
  - apply layoutTraced_silent. intros w. cbn. rewrite layoutEvents_app. cbn.
    apply app_nil_r.
  - apply layoutTraced_external.
  - apply layoutTraced_silent. reflexivity.
Qed.

Lemma layoutTraced_emit (ev : event) :
  layoutEvents [ev] = [ev] -> layoutTraced (emit (E := E) ev) [ev].
Proof.
  intros Hev w. exists 1%nat. cbn. rewrite layoutEvents_app, Hev. auto.
Qed.

Lemma layoutTraced_bind {A B} (m : Go (World E) A) (k : A -> Go (World E) B)
    (e1 e2 : list event) :
  layoutTraced m e1 -> (forall a, layoutTraced (k a) e2) -> layoutTraced (bind m k) (e1 ++ e2).
Proof.
  intros Hm Hk w. unfold bind. destruct (Hm w) as (n1 & Hle1 & Htr1 & Hret1).
  destruct (m w) as [[a | v | |] w1] eqn:Hmw; cbn in *.
  - destruct (Hk a w1) as (n2 & Hle2 & Htr2 & Hret2).
    specialize (Hret1 a eq_refl). subst n1.
    exists (length e1 + n2)%nat. rewrite length_app. split; [lia |]. split.
    + rewrite Htr2, Htr1, take_app_add', firstn_all, <- app_assoc by reflexivity. reflexivity.
    + intros b Hb. rewrite (Hret2 b Hb). reflexivity.
  - exists n1. rewrite length_app, take_app_le by lia. repeat split; [lia | exact Htr1 | discriminate].
  - exists n1. rewrite length_app, take_app_le by lia. repeat split; [lia | exact Htr1 | discriminate].
  - exists n1. rewrite length_app, take_app_le by lia. repeat split; [lia | exact Htr1 | discriminate].
Qed.

Lemma layoutTraced_forEach {A} (xs : list A) (f : A -> Go (World E) unit) (ev : A -> list event) :
  (forall x, layoutTraced (f x) (ev x)) -> layoutTraced (forEach xs f) (flat_map ev xs).
Proof.
  intros Hf. induction xs as [| x xs IH]; cbn.
  - apply layoutTraced_ret.
  - apply layoutTraced_bind; [apply Hf | intros _; exact IH].
Qed.

(** *** Computations that leave the singleton alone *)

Lemma appStable_ret {A} (a : A) : appStable (ret (W := World E) a).
Proof. intros w. reflexivity. Qed.

Lemma appStable_bind {A B} (m : Go (World E) A) (k : A -> Go (World E) B) :
  appStable m -> (forall a, appStable (k a)) -> appStable (bind m k).
Proof.
  intros Hm Hk w. unfold bind. specialize (Hm w).
  destruct (m w) as [[a | v | |] w1]; cbn in *; try exact Hm.
  rewrite Hk. exact Hm.
Qed.

Lemma appStable_external {A} (m : Go E A) : appStable (external m).
Proof.
  intros w. unfold external, liftS, liftE. destruct (m (ext (sys w))). reflexivity.
Qed.

Lemma appStable_emit (ev : event) : appStable (emit (E := E) ev).
Proof. intros w. reflexivity. Qed.

Lemma appStable_callFunc (fn : func) : appStable (callFunc fn).
Proof.
  destruct fn as [[code | id] |]; cbn; [| apply appStable_external |]; intros w; reflexivity.
Qed.

Lemma appStable_forEach {A} (xs : list A) (f : A -> Go (World E) unit) :
  (forall x, appStable (f x)) -> appStable (forEach xs f).
Proof.
  intros Hf. induction xs as [| x xs IH]; cbn.
  - apply appStable_ret.
  - apply appStable_bind; [apply Hf | intros _; exact IH].
Qed.

(** *** The two loops of [runSyncLayout] *)

Lemma runSyncLayout_unfold (w : World E) :
  runSyncLayout w = (applyLoop (layoutBatch w) ;;; completionLoop (layoutBatch w)) (drained w).
Proof.
reflexivity. Qed.

Lemma flat_map_singleton {A B} (f : A -> B) (l : list A) :
  flat_map (fun x => [f x]) l = map f l.
Proof. induction l as [| x l IH]; cbn; [reflexivity | rewrite IH; reflexivity]. Qed.

Lemma applyLoop_traced (lrs : list formLayoutResult) :
  layoutTraced (applyLoop lrs) (applications lrs).
Proof.
  unfold applyLoop, applications.
  rewrite <- flat_map_singleton.
  apply layoutTraced_forEach. intros lr.
  apply (layoutTraced_bind _ _ [_] []); [apply layoutTraced_emit; reflexivity |].
  intros _. apply layoutTraced_external.
Qed.

Lemma completionLoop_traced (lrs : list formLayoutResult) :
  layoutTraced (completionLoop lrs) (completions lrs).
Proof.
  unfold completionLoop, completions.
  apply layoutTraced_forEach. intros lr.
  rewrite <- flat_map_singleton.
  apply layoutTraced_forEach. intros fn.
  apply (layoutTraced_bind _ _ [_] []); [apply layoutTraced_emit; reflexivity |].
  intros _. apply layoutTraced_callFunc.
Qed.

Lemma loops_appStable (lrs : list formLayoutResult) :
  appStable (applyLoop lrs ;;; completionLoop lrs).
Proof.
  apply appStable_bind; [| intros _].
  - apply appStable_forEach. intros lr.
    apply appStable_bind; [apply appStable_emit | intros _; apply appStable_external].
  - apply appStable_forEach. intros lr. apply appStable_forEach. intros fn.
    apply appStable_bind; [apply appStable_emit | intros _; apply appStable_callFunc].
Qed.

Lemma runSyncLayout_clears (w : World E) :
  layoutResultsByForm (appSingleton (sys (snd (runSyncLayout w))))
    = clearMap (layoutResultsByForm (appSingleton (sys w))).
Proof.
  rewrite runSyncLayout_unfold, (loops_appStable (layoutBatch w) (drained w)).
  cbn. destruct (appSingleton (sys w)). reflexivity.
Qed.

Lemma applications_no_completion (lrs : list formLayoutResult) (fn : func) :
  EvCompletion fn ∉ applications lrs.
Proof.
  unfold applications. intros Hin. apply list_elem_of_fmap in Hin as (lr & Heq & _).
  discriminate.
Qed.

(** C3.  One run of [runSyncLayout], started in any state [w], takes the
    queued results out of the map in one batch (a rearrangement of the values
    of the map, which is left empty), and its applications and completion
    calls are, in this order, the first [n] entries of: the application of
    every result of the batch, followed by every completion func of every
    result of the batch.  So when a completion func has been called, every
    result of the batch has been applied before it, and when the run returns
    all applications and all completion calls have happened. *)
Theorem runSyncLayout_applies_batch_then_completes (w : World E) :
  let batch := layoutBatch w in
  let w' := snd (runSyncLayout w) in
  batch ≡ₚ match layoutResultsByForm (appSingleton (sys w)) with
           | Some m => snd <$> map_to_list m
           | None => []
           end /\
  layoutResultsByForm (appSingleton (sys w')) = clearMap (layoutResultsByForm (appSingleton (sys w))) /\
  (exists n : nat,
     layoutEvents (trace w') =
       layoutEvents (trace w) ++ take n (applications batch ++ completions batch) /\
     (forall fn, EvCompletion fn ∈ take n (applications batch ++ completions batch) ->
        take n (applications batch ++ completions batch) =
          applications batch ++ take (n - length (applications batch)) (completions batch))) /\
  (fst (runSyncLayout w) = Ret tt ->
     layoutEvents (trace w') = layoutEvents (trace w) ++ applications batch ++ completions batch).
Proof.
  cbn zeta. rewrite runSyncLayout_unfold.
  pose proof (layoutTraced_bind _ _ _ _ (applyLoop_traced (layoutBatch w))
                (fun _ => completionLoop_traced (layoutBatch w)) (drained w))
    as (n & Hle & Htr & Hret).
  set (run := (applyLoop (layoutBatch w) ;;; completionLoop (layoutBatch w)) (drained w)) in *.
  split; [| split; [| split]].
  - unfold layoutBatch. destruct (layoutResultsByForm (appSingleton (sys w))); [| reflexivity].
    apply mapRange_perm.
  - subst run. rewrite <- runSyncLayout_unfold. apply runSyncLayout_clears.
  - exists n. split; [exact Htr |]. intros fn Hin.
    destruct (Nat.le_gt_cases (length (applications (layoutBatch w))) n) as [Hge | Hlt].
    + rewrite take_app_ge by exact Hge. reflexivity.
    + rewrite take_app_le in Hin by lia.
      apply elem_of_take in Hin as (i & Hi & _). apply list_elem_of_lookup_2 in Hi.
      exfalso. exact (applications_no_completion _ _ Hi).
  - intros Hr. destruct run as [r w1]. cbn in *. subst r.
    rewrite Htr, (Hret tt eq_refl), firstn_all. reflexivity.
Qed.

(** *** The pending-result map *)

Lemma latest_form (f : nat) (rs : list formLayoutResult) (r : formLayoutResult) :
  latest f rs = Some r -> form r = f.
Proof.
  induction rs as [| r0 rs IH]; cbn; [discriminate |].
  destruct (latest f rs) as [r' |].
  - intros [= <-]. apply IH. reflexivity.
  - destruct (Nat.eqb_spec (form r0) f); [| discriminate]. intros [= <-]. assumption.
Qed.

Lemma storeAll_lookup (rs : list formLayoutResult) :
  forall (m : gmap nat formLayoutResult) (f : nat),
    storeAll m rs !! f = match latest f rs with
                         | Some r => Some r
                         | None => m !! f
                         end.
Proof.
  induction rs as [| r rs IH]; intros m f; cbn; [reflexivity |].
  unfold storeAll in *. rewrite IH.
  destruct (latest f rs) as [r' |]; [reflexivity |].
  destruct (Nat.eqb_spec (form r) f) as [<- | Hne].
  - apply lookup_insert_eq.
  - apply lookup_insert_ne. exact Hne.
Qed.

Lemma synchronizeLayout_stores (r : formLayoutResult) (w : World E)
    (m : gmap nat formLayoutResult) :
  layoutResultsByForm (appSingleton (sys w)) = Some m ->
  exists w1 : World E,
    synchronizeLayout r w = (Ret tt, w1) /\
    layoutResultsByForm (appSingleton (sys w1)) = Some (<[form r := r]> m) /\
    trace w1 = trace w /\
    queue (sys w1) =
      queue (sys w) ++ [mkMSG (msgWindow (appSingleton (sys w)))
                              (syncLayoutMsg (appSingleton (sys w))) 0 0].
Proof.
  intros Hm. unfold synchronizeLayout, synchronizeLayout_locked, synchronizeLayout_post,
    bind, getApp. cbn. rewrite Hm. cbn.
  eexists. split; [reflexivity |]. cbn. destruct (appSingleton (sys w)). auto.
Qed.

Lemma submitAll_spec (rs : list formLayoutResult) :
  forall (w : World E) (m : gmap nat formLayoutResult),
    layoutResultsByForm (appSingleton (sys w)) = Some m ->
    exists w' : World E,
      submitAll rs w = (Ret tt, w') /\
      layoutResultsByForm (appSingleton (sys w')) = Some (storeAll m rs) /\
      trace w' = trace w.
Proof.
  induction rs as [| r rs IH]; intros w m Hm.
  - exists w. auto.
  - destruct (synchronizeLayout_stores r w m Hm) as (w1 & Hw1 & Hm1 & Htr1 & _).
    destruct (IH w1 (<[form r := r]> m) Hm1) as (w' & Hrun & Hm' & Htr).
    exists w'.
    change (submitAll (r :: rs) w) with (bind (synchronizeLayout r) (fun _ => submitAll rs) w).
    unfold bind. rewrite Hw1, Hrun. repeat split; [exact Hm' | congruence].
Qed.

(** C4.  Starting from an empty pending-result map, after any sequence [rs]
    of [synchronizeLayout] calls the map holds, for every form, the result
    submitted last for that form and nothing else: an older result for the
    same form has been replaced.  The batch that the next [runSyncLayout]
    takes is the content of the map: it has one result per form, a result is
    in it exactly when it is the latest submitted for its form, and the run
    leaves the map empty again. *)
Theorem synchronizeLayout_keeps_latest_per_form (rs : list formLayoutResult) (w : World E) :
  layoutResultsByForm (appSingleton (sys w)) = Some ∅ ->
  exists (w' : World E) (m' : gmap nat formLayoutResult),
    submitAll rs w = (Ret tt, w') /\
    layoutResultsByForm (appSingleton (sys w')) = Some m' /\
    (forall f, m' !! f = latest f rs) /\
    NoDup (form <$> layoutBatch w') /\
    (forall r, r ∈ layoutBatch w' <-> latest (form r) rs = Some r) /\
    layoutResultsByForm (appSingleton (sys (snd (runSyncLayout w')))) = Some ∅.
Proof.
  intros Hm. destruct (submitAll_spec rs w ∅ Hm) as (w' & Hrun & Hm' & _).
  exists w', (storeAll ∅ rs).
  assert (Hlook : forall f, storeAll ∅ rs !! f = latest f rs).
  { intros f. rewrite storeAll_lookup. destruct (latest f rs); [reflexivity | apply lookup_empty]. }
  assert (Hbatch : layoutBatch w' ≡ₚ snd <$> map_to_list (storeAll ∅ rs)).
  { unfold layoutBatch. rewrite Hm'. apply mapRange_perm. }
  split; [exact Hrun |]. split; [exact Hm' |]. split; [exact Hlook |].
  split; [| split].
  - rewrite Hbatch.
    replace (form <$> (snd <$> map_to_list (storeAll ∅ rs)))
      with (fst <$> map_to_list (storeAll ∅ rs)).
    + apply NoDup_fst_map_to_list.
    + rewrite <- list_fmap_compose. apply list_fmap_ext.
      intros i [k r] Hi. cbn. apply list_elem_of_lookup_2, elem_of_map_to_list in Hi.
      rewrite Hlook in Hi. symmetry. exact (latest_form k rs r Hi).
  - intros r. rewrite Hbatch, list_elem_of_fmap. split.
    + intros ([k r'] & -> & Hin). cbn. apply elem_of_map_to_list in Hin.
      rewrite Hlook in Hin. rewrite (latest_form k rs r' Hin). exact Hin.
    + intros Hl. exists (form r, r). split; [reflexivity |].
      apply elem_of_map_to_list. rewrite Hlook. exact Hl.
  - rewrite runSyncLayout_clears, Hm'. reflexivity.
Qed.

End LayoutBridge.

(** ** Pre-translate hooks *)

Section Hooks.
Context {E : Type} {rt : GoRuntime} {X : Externals E} {W32 : Win32 E}.

Lemma hookCalls_app (t1 t2 : list event) : hookCalls (t1 ++ t2) = hookCalls t1 ++ hookCalls t2.
Proof.
  induction t1 as [| ev t1 IH]; [reflexivity |].
  destruct ev; cbn; rewrite ?IH; reflexivity.
Qed.

Lemma translatedOrDispatched_app (t1 t2 : list event) :
  translatedOrDispatched (t1 ++ t2) = translatedOrDispatched t1 ++ translatedOrDispatched t2.
Proof.
  induction t1 as [| ev t1 IH]; [reflexivity |].
  destruct ev; cbn; rewrite ?IH; reflexivity.
Qed.

Lemma declined_app (l1 l2 : list Handler) : declined (l1 ++ l2) = declined l1 ++ declined l2.
Proof. apply map_app. Qed.

Lemma runHandlers_cons (h : Handler) (hs : list Handler) (msg : MSG) (w : World E) :
  runHandlers (h :: hs) msg w =
    match OnPreTranslate h msg (ext (sys w)) with
    | (Ret (handled, m'), e') =>
        let w1 := mkWorld (set_ext e' (sys w)) (trace w ++ [EvPreTranslate h msg handled]) in
        if handled then (Ret (true, m'), w1) else runHandlers hs m' w1
    | (Panic v, e') => (Panic v, mkWorld (set_ext e' (sys w)) (trace w))
    | (Block, e') => (Block, mkWorld (set_ext e' (sys w)) (trace w))
    | (OutOfFuel, e') => (OutOfFuel, mkWorld (set_ext e' (sys w)) (trace w))
    end.
Proof.
  cbn [runHandlers]. unfold bind, external, liftS, liftE, emit.
  destruct (OnPreTranslate h msg (ext (sys w))) as [[[[] m'] | v | |] e']; reflexivity.
Qed.

(** One chain of handlers: the events it adds are hook calls only, worked off
    as [shortCircuit] says; it touches the external state and the trace. *)
Lemma runHandlers_spec (hs : list Handler) :
  forall (msg : MSG) (w : World E),
    exists (calls : list (Handler * bool)) (tr : list event),
      trace (snd (runHandlers hs msg w)) = trace w ++ tr /\
      hookCalls tr = calls /\
      translatedOrDispatched tr = [] /\
      shortCircuit hs (fst (runHandlers hs msg w)) calls /\
      appSingleton (sys (snd (runHandlers hs msg w))) = appSingleton (sys w) /\
      rng (sys (snd (runHandlers hs msg w))) = rng (sys w).
Proof.
  induction hs as [| h hs IH]; intros msg w.
  - exists [], []. cbn. rewrite app_nil_r. repeat split.
  - rewrite runHandlers_cons.
    destruct (OnPreTranslate h msg (ext (sys w))) as [[[[] m'] | v | |] e'] eqn:Hcall; cbn zeta.
    + exists [(h, true)], [EvPreTranslate h msg true]. cbn. repeat split.
      exists O, h. auto.
    + set (w1 := mkWorld _ _).
      destruct (IH m' w1) as (calls & tr & Htr & Hcalls & Htd & Hsc & Happ & Hrng).
      exists ((h, false) :: calls), (EvPreTranslate h msg false :: tr).
      rewrite Htr, Happ, Hrng. subst w1. cbn. rewrite <- app_assoc. cbn.
      repeat split; [congruence | exact Htd |].
      subst calls.
      destruct (fst (runHandlers hs m' _)) as [[[] m''] | v | |]; cbn in *.
      * destruct Hsc as (k & h' & Hk & Heq). exists (S k), h'. rewrite Heq. auto.
      * rewrite Hsc. reflexivity.
      * destruct Hsc as (k & Hk & Heq). exists (S k). rewrite Heq. split; [lia | reflexivity].
      * destruct Hsc as (k & Hk & Heq). exists (S k). rewrite Heq. split; [lia | reflexivity].
      * destruct Hsc as (k & Hk & Heq). exists (S k). rewrite Heq. split; [lia | reflexivity].
    + exists [], []. cbn. rewrite app_nil_r. repeat split. exists O. split; [lia | reflexivity].
    + exists [], []. cbn. rewrite app_nil_r. repeat split. exists O. split; [lia | reflexivity].
    + exists [], []. cbn. rewrite app_nil_r. repeat split. exists O. split; [lia | reflexivity].
Qed.

Lemma shortCircuit_stop (c1 c2 : list Handler) (r : result (bool * MSG))
    (calls : list (Handler * bool)) :
  shortCircuit c1 r calls ->
  (forall m, r <> Ret (false, m)) ->
  shortCircuit (c1 ++ c2) r calls.
Proof.
  unfold shortCircuit. destruct r as [[[] m] | v | |]; intros Hsc Hne.
  - destruct Hsc as (k & h & Hk & ->). exists k, h.
    pose proof (lookup_lt_Some _ _ _ Hk) as Hlt.
    rewrite lookup_app_l, take_app_le by lia. auto.
  - exfalso. exact (Hne m eq_refl).
  - destruct Hsc as (k & Hk & ->). exists k. rewrite length_app, take_app_le by lia. split; [lia | auto].
  - destruct Hsc as (k & Hk & ->). exists k. rewrite length_app, take_app_le by lia. split; [lia | auto].
  - destruct Hsc as (k & Hk & ->). exists k. rewrite length_app, take_app_le by lia. split; [lia | auto].
Qed.

Lemma shortCircuit_continue (c1 c2 : list Handler) (r : result (bool * MSG))
    (calls : list (Handler * bool)) :
  shortCircuit c2 r calls ->
  shortCircuit (c1 ++ c2) r (declined c1 ++ calls).
Proof.
  unfold shortCircuit. destruct r as [[[] m] | v | |]; intros Hsc.
  - destruct Hsc as (k & h & Hk & ->). exists (length c1 + k)%nat, h.
    rewrite lookup_app_r, take_app_add', declined_app, <- app_assoc by (reflexivity || lia).
    replace (length c1 + k - length c1)%nat with k by lia. auto.
  - subst calls. rewrite declined_app. reflexivity.
  - destruct Hsc as (k & Hk & ->). exists (length c1 + k)%nat.
    rewrite length_app, take_app_add', declined_app by reflexivity. split; [lia | auto].
  - destruct Hsc as (k & Hk & ->). exists (length c1 + k)%nat.
    rewrite length_app, take_app_add', declined_app by reflexivity. split; [lia | auto].
  - destruct Hsc as (k & Hk & ->). exists (length c1 + k)%nat.
    rewrite length_app, take_app_add', declined_app by reflexivity. split; [lia | auto].
Qed.

Lemma ownStage_spec (msg : MSG) (w : World E) :
  exists (calls : list (Handler * bool)) (tr : list event),
    trace (snd (ownStage msg w)) = trace w ++ tr /\
    hookCalls tr = calls /\
    translatedOrDispatched tr = [] /\
    shortCircuit (ownHandler msg (ext (sys w))) (fst (ownStage msg w)) calls.
Proof.
  unfold ownStage, ownHandler, bind at 1, getMsgWindow. cbn.
  destruct (windowFromHandle (HWnd msg) (ext (sys w))) as [win |].
  2:{ exists [], []. cbn. rewrite app_nil_r. auto. }
  destruct (asPreTranslateHandler win) as [h |].
  2:{ exists [], []. cbn. rewrite app_nil_r. auto. }
  unfold bind, external, liftS, liftE, emit.
  destruct (OnPreTranslate h msg (ext (sys w))) as [[[[] m'] | v | |] e']; cbn.
  - exists [(h, true)], [EvPreTranslate h msg true]. repeat split. exists O, h. auto.
  - exists [(h, false)], [EvPreTranslate h msg false]. repeat split.
  - exists [], []. rewrite app_nil_r. repeat split. exists O. split; [cbn; lia | reflexivity].
  - exists [], []. rewrite app_nil_r. repeat split. exists O. split; [cbn; lia | reflexivity].
  - exists [], []. rewrite app_nil_r. repeat split. exists O. split; [cbn; lia | reflexivity].
Qed.

Lemma runPreTranslateHandler_unfold (msg : MSG) (w : World E) :
  runPreTranslateHandler msg w =
    let r1 := runHandlers (globalPreTranslateHandlers (appSingleton (sys w))) msg w in
    match fst r1 with
    | Ret (true, m1) => (Ret (true, m1), snd r1)
    | Ret (false, m1) =>
        let w1 := mkWorld (set_rng (S (rng (sys (snd r1)))) (sys (snd r1))) (trace (snd r1)) in
        let perWindow :=
          match perWindowPreTranslateHandlers (appSingleton (sys w)) with
          | Some m => mapRange Handler (rng (sys (snd r1))) (snd <$> map_to_list m)
          | None => []
          end in
        let r2 := runHandlers perWindow m1 w1 in
        match fst r2 with
        | Ret (true, m2) => (Ret (true, m2), snd r2)
        | Ret (false, m2) => ownStage m2 (snd r2)
        | Panic v => (Panic v, snd r2)
        | Block => (Block, snd r2)
        | OutOfFuel => (OutOfFuel, snd r2)
        end
    | Panic v => (Panic v, snd r1)
    | Block => (Block, snd r1)
    | OutOfFuel => (OutOfFuel, snd r1)
    end.
Proof.
  unfold runPreTranslateHandler, ownStage. unfold bind at 1, getApp. cbn zeta.
  unfold bind at 1.
  destruct (runHandlers (globalPreTranslateHandlers (appSingleton (sys w))) msg w)
    as [[[[] m1] | v | |] w1]; cbn; try reflexivity.
  unfold bind at 1, rangeValues. cbn. unfold bind at 1.
  destruct (runHandlers _ m1 _) as [[[[] m2] | v | |] w2]; reflexivity.
Qed.

Lemma registeredStages_unfold (msg : MSG) (w : World E) :
  registeredStages msg w =
    let r1 := runHandlers (globalPreTranslateHandlers (appSingleton (sys w))) msg w in
    match fst r1 with
    | Ret (true, m1) => (Ret (true, m1), snd r1)
    | Ret (false, m1) =>
        let w1 := mkWorld (set_rng (S (rng (sys (snd r1)))) (sys (snd r1))) (trace (snd r1)) in
        let perWindow :=
          match perWindowPreTranslateHandlers (appSingleton (sys w)) with
          | Some m => mapRange Handler (rng (sys (snd r1))) (snd <$> map_to_list m)
          | None => []
          end in
        runHandlers perWindow m1 w1
    | Panic v => (Panic v, snd r1)
    | Block => (Block, snd r1)
    | OutOfFuel => (OutOfFuel, snd r1)
    end.
Proof.
  unfold registeredStages. unfold bind at 1, getApp. cbn zeta.
  unfold bind at 1.
  destruct (runHandlers (globalPreTranslateHandlers (appSingleton (sys w))) msg w)
    as [[[[] m1] | v | |] w1]; cbn; try reflexivity.
Qed.

(** [runPreTranslateHandler] is its two loops followed by the stage of the
    window's own handler. *)
Lemma runPreTranslateHandler_stages (msg : MSG) (w : World E) :
  runPreTranslateHandler msg w =
    (r <- registeredStages msg ;; if fst r then ret r else ownStage (snd r)) w.
Proof.
  rewrite runPreTranslateHandler_unfold. unfold bind at 1.
  rewrite registeredStages_unfold. cbn zeta.
  destruct (runHandlers (globalPreTranslateHandlers (appSingleton (sys w))) msg w)
    as [[[[] m1] | v | |] w1]; cbn [fst snd]; try reflexivity.
  destruct (runHandlers _ m1 _) as [[[[] m2] | v | |] w2]; reflexivity.
Qed.

(** The two loops: the global handlers in registration order, then every
    handler registered per window, in the order of the map's iteration. *)
Lemma registeredStages_spec (msg : MSG) (w : World E) :
  exists (calls : list (Handler * bool)) (tr : list event),
    trace (snd (registeredStages msg w)) = trace w ++ tr /\
    hookCalls tr = calls /\
    translatedOrDispatched tr = [] /\
    shortCircuit (globalPreTranslateHandlers (appSingleton (sys w)) ++ perWindowOrder w)
                 (fst (registeredStages msg w)) calls.
Proof.
  rewrite registeredStages_unfold. cbn zeta.
  set (globals := globalPreTranslateHandlers (appSingleton (sys w))) in *.
  destruct (runHandlers_spec globals msg w)
    as (calls1 & tr1 & Htr1 & Hc1 & Htd1 & Hsc1 & Happ1 & Hrng1).
  destruct (runHandlers globals msg w) as [r1 w1] eqn:Hrun1. cbn [fst snd] in *.
  assert (Hstop1 : (forall m, r1 <> Ret (false, m)) ->
            shortCircuit (globals ++ perWindowOrder w) r1 calls1).
  { intros Hne. apply shortCircuit_stop; assumption. }
  destruct r1 as [[[] m1] | v | |];
    try (exists calls1, tr1;
         repeat split; [exact Htr1 | exact Hc1 | exact Htd1 | apply Hstop1; discriminate]).
  (* the global handlers declined *)
  clear Hstop1. rewrite Hrng1 in *.
  change (match perWindowPreTranslateHandlers (appSingleton (sys w)) with
          | Some m => mapRange Handler (rng (sys w)) (snd <$> map_to_list m)
          | None => []
          end) with (perWindowOrder w) in *.
  set (w1' := mkWorld _ (trace w1)) in *.
  destruct (runHandlers_spec (perWindowOrder w) m1 w1')
    as (calls2 & tr2 & Htr2 & Hc2 & Htd2 & Hsc2 & _ & _).
  exists (calls1 ++ calls2), (tr1 ++ tr2). repeat split.
  - rewrite Htr2. subst w1'. cbn. rewrite Htr1, app_assoc. reflexivity.
  - rewrite hookCalls_app. congruence.
  - rewrite translatedOrDispatched_app, Htd1, Htd2. reflexivity.
  - cbn in Hsc1. subst calls1. rewrite Hsc1. apply shortCircuit_continue. exact Hsc2.
Qed.

(** A chain of hooks that keep the destination leaves the window's own
    handler what it was. *)
Lemma runHandlers_keeps_destination (hs : list Handler) :
  hooksKeepDestination ->
  forall (msg m : MSG) (handled : bool) (w w' : World E),
    runHandlers hs msg w = (Ret (handled, m), w') ->
    ownHandler m (ext (sys w')) = ownHandler msg (ext (sys w)).
Proof.
  intros Hkeep. induction hs as [| h hs IH]; intros msg m handled w w' Hrun.
  - cbn in Hrun. injection Hrun as <- <- <-. reflexivity.
  - rewrite runHandlers_cons in Hrun.
    destruct (OnPreTranslate h msg (ext (sys w))) as [[[[] m1] | v | |] e1] eqn:Hcall;
      cbn zeta in Hrun; try discriminate Hrun;
      destruct (Hkeep _ _ _ _ _ _ Hcall) as [Hhwnd Hwin].
    + injection Hrun as <- <- <-. unfold ownHandler. cbn. rewrite Hhwnd, Hwin. reflexivity.
    + rewrite (IH _ _ _ _ _ Hrun). unfold ownHandler. cbn. rewrite Hhwnd, Hwin. reflexivity.
Qed.

(** C2, as the code has it.  For every message [msg] offered to the
    pre-translate hooks in any state [w], the hooks are called in this order:
    the global handlers in registration order, then every handler registered
    for a window handle, whatever the destination of [msg], in the order in
    which the runtime visits the map, then the handler that the destination
    window of the message implements itself, if there is one: the window that
    [windowFromHandle] gives for the [HWnd] of the message when the
    registered handlers have all declined.  The chain stops at the first
    handler that returns true: the handlers before it returned false and none
    after it is called.  Nothing is translated or dispatched while the hooks
    run, and when a hook returned true the loop goes on to the next message
    without translating or dispatching this one.  With hooks that leave the
    destination and the windows alone, the last handler is the one of the
    window that [msg] was for at the start. *)
Theorem runPreTranslateHandler_order (msg : MSG) (w : World E) :
  let res := runPreTranslateHandler msg w in
  exists (calls : list (Handler * bool)) (tr : list event),
    trace (snd res) = trace w ++ tr /\
    hookCalls tr = calls /\
    translatedOrDispatched tr = [] /\
    shortCircuit (globalPreTranslateHandlers (appSingleton (sys w)) ++ perWindowOrder w ++
                  destinationHandler msg w)
                 (fst res) calls /\
    (forall m', fst res = Ret (true, m') -> mainLoopBody msg w = (Ret tt, snd res)) /\
    (hooksKeepDestination ->
     (exists m, fst (registeredStages msg w) = Ret (false, m)) ->
     destinationHandler msg w = ownHandler msg (ext (sys w))).
Proof.
  cbn zeta.
  assert (Hbody : forall m', fst (runPreTranslateHandler msg w) = Ret (true, m') ->
                             mainLoopBody msg w = (Ret tt, snd (runPreTranslateHandler msg w))).
  { intros m' Hres. unfold mainLoopBody, bind at 1.
    destruct (runPreTranslateHandler msg w) as [r w']. cbn in Hres. subst r. reflexivity. }
  assert (Hdest : hooksKeepDestination ->
                  (exists m, fst (registeredStages msg w) = Ret (false, m)) ->
                  destinationHandler msg w = ownHandler msg (ext (sys w))).
  { intros Hkeep [m Hm]. unfold destinationHandler.
    destruct (registeredStages msg w) as [r w2] eqn:Hstages. cbn in Hm. subst r.
    rewrite registeredStages_unfold in Hstages. cbn zeta in Hstages.
    destruct (runHandlers (globalPreTranslateHandlers (appSingleton (sys w))) msg w)
      as [[[[] m1] | v | |] w1] eqn:Hrun1; cbn [fst snd] in Hstages; try discriminate Hstages.
    rewrite (runHandlers_keeps_destination _ Hkeep _ _ _ _ _ Hstages). cbn.
    exact (runHandlers_keeps_destination _ Hkeep _ _ _ _ _ Hrun1). }
  revert Hbody. rewrite runPreTranslateHandler_stages. unfold bind.
  revert Hdest. unfold destinationHandler.
  set (globals := globalPreTranslateHandlers (appSingleton (sys w))).
  destruct (registeredStages_spec msg w) as (calls12 & tr12 & Htr12 & Hc12 & Htd12 & Hsc12).
  fold globals in Hsc12.
  destruct (registeredStages msg w) as [r w2]. cbn [fst snd] in *.
  assert (Hstop : (forall m, r <> Ret (false, m)) ->
            shortCircuit (globals ++ perWindowOrder w ++ []) r calls12).
  { intros _. rewrite app_nil_r. exact Hsc12. }
  destruct r as [[[] m2] | v | |]; intros Hdest Hbody;
    try (exists calls12, tr12;
         repeat split; [exact Htr12 | exact Hc12 | exact Htd12 | apply Hstop; discriminate
                       | exact Hbody | exact Hdest]).
  (* the registered handlers declined *)
  clear Hstop. cbn [fst snd] in *.
  destruct (ownStage_spec m2 w2) as (calls3 & tr3 & Htr3 & Hc3 & Htd3 & Hsc3).
  exists (calls12 ++ calls3), (tr12 ++ tr3). repeat split.
  - rewrite Htr3, Htr12, <- app_assoc. reflexivity.
  - rewrite hookCalls_app. congruence.
  - rewrite translatedOrDispatched_app, Htd12, Htd3. reflexivity.
  - cbn in Hsc12. subst calls12. rewrite Hsc12, app_assoc.
    apply shortCircuit_continue. exact Hsc3.
  - exact Hbody.
  - exact Hdest.
Qed.

End Hooks.

(** ** Dispatch to the message window *)

Section Dispatch.
Context {E : Type} {rt : GoRuntime} {X : Externals E} {W32 : Win32 E}.

Lemma disposals_app (t1 t2 : list event) : disposals (t1 ++ t2) = (disposals t1 + disposals t2)%nat.
Proof.
  induction t1 as [| ev t1 IH]; [reflexivity |].
  destruct ev; cbn; rewrite ?IH; reflexivity.
Qed.

Lemma preserves_ret {T A} (obs : World E -> T) (a : A) : preserves obs (ret a).
Proof. intros w. reflexivity. Qed.

Lemma preserves_panic {T A} (obs : World E -> T) (v : any) : preserves obs (panic (A := A) v).
Proof. intros w. reflexivity. Qed.

Lemma preserves_bind {T A B} (obs : World E -> T) (m : Go (World E) A) (k : A -> Go (World E) B) :
  preserves obs m -> (forall a, preserves obs (k a)) -> preserves obs (bind m k).
Proof.
  intros Hm Hk w. unfold bind. specialize (Hm w).
  destruct (m w) as [[a | v | |] w1]; cbn in *; try exact Hm.
  rewrite Hk. exact Hm.
Qed.

Lemma preserves_forEach {T A} (obs : World E -> T) (xs : list A) (f : A -> Go (World E) unit) :
  (forall x, preserves obs (f x)) -> preserves obs (forEach xs f).
Proof.
  intros Hf. induction xs as [| x xs IH]; cbn.
  - apply preserves_ret.
  - apply preserves_bind; [apply Hf | intros _; exact IH].
Qed.

Lemma dd_external {A} (m : Go E A) : preserves depthAndDisposals (external m).
Proof.
  intros w. unfold external, liftS, liftE. destruct (m (ext (sys w))). reflexivity.
Qed.

Lemma dd_emit (ev : event) : ev <> EvDispose -> preserves depthAndDisposals (emit (E := E) ev).
Proof.
  intros Hev w. unfold depthAndDisposals, emit. cbn. rewrite disposals_app.
  destruct ev; cbn; rewrite ?Nat.add_0_r; try reflexivity. contradiction.
Qed.

Lemma dd_callFunc (fn : func) : preserves depthAndDisposals (callFunc fn).
Proof.
  destruct fn as [[code | id] |]; cbn.
  - intros w. unfold depthAndDisposals, PostQuitMessage. cbn. rewrite disposals_app. cbn.
    rewrite Nat.add_0_r. reflexivity.
  - apply dd_external.
  - apply preserves_panic.
Qed.

Lemma dd_runSyncFunc (tid : Z) : preserves depthAndDisposals (runSyncFunc tid).
Proof.
  intros w. unfold runSyncFunc. unfold bind at 1, getApp. cbv beta iota.
  destruct (syncFuncs (appSingleton (sys w))) as [| fn rest]; [reflexivity |].
  unfold bind at 1, modifyApp. cbv beta iota.
  set (w1 := mkWorld _ _).
  assert (H1 : depthAndDisposals w1 = depthAndDisposals w).
  { subst w1. unfold depthAndDisposals. cbn. destruct (appSingleton (sys w)). reflexivity. }
  rewrite <- H1. destruct fn as [c |]; [| reflexivity].
  apply (preserves_bind depthAndDisposals (emit (EvRun c tid)) (fun _ => callFunc (Some c))).
  - apply dd_emit. discriminate.
  - intros _. apply dd_callFunc.
Qed.

Lemma dd_runSyncLayout : preserves depthAndDisposals runSyncLayout.
Proof.
  intros w. rewrite runSyncLayout_unfold.
  assert (H1 : depthAndDisposals (drained w) = depthAndDisposals w).
  { unfold depthAndDisposals, drained. cbn. destruct (appSingleton (sys w)). reflexivity. }
  rewrite <- H1. apply preserves_bind; [| intros _].
  - apply preserves_forEach. intros lr.
    apply preserves_bind; [apply dd_emit; discriminate | intros _; apply dd_external].
  - apply preserves_forEach. intros lr. apply preserves_forEach. intros fn.
    apply preserves_bind; [apply dd_emit; discriminate | intros _; apply dd_callFunc].
Qed.

Lemma dd_appMsgWndProc (tid : Z) (hwnd : HWND) (msg wParam lParam : Z) :
  preserves depthAndDisposals (appMsgWndProc tid hwnd msg wParam lParam).
Proof.
  intros w. unfold appMsgWndProc, deferRecover.
  set (body := bind getApp _).
  assert (Hb : preserves depthAndDisposals body).
  { subst body. apply preserves_bind; [intros w0; reflexivity | intros app].
    destruct (msg =? syncFuncMsg app).
    - apply preserves_bind; [apply dd_runSyncFunc | intros _; apply preserves_ret].
    - destruct (msg =? syncLayoutMsg app).
      + apply preserves_bind; [apply dd_runSyncLayout | intros _; apply preserves_ret].
      + apply dd_external. }
  specialize (Hb w). destruct (body w) as [[a | v | |] w1]; cbn in *; try exact Hb.
  rewrite <- Hb. unfold depthAndDisposals. cbn. rewrite disposals_app. cbn.
  rewrite Nat.add_0_r. reflexivity.
Qed.

(** The window procedure of the message window does not let a panic out. *)
Lemma appMsgWndProc_neverPanics (tid : Z) (hwnd : HWND) (msg wParam lParam : Z) :
  neverPanics (appMsgWndProc tid hwnd msg wParam lParam).
Proof.
  intros w v. unfold appMsgWndProc, deferRecover.
  destruct (bind getApp _ w) as [[a | v' | |] w1]; cbn; discriminate.
Qed.

End Dispatch.

(** ** The top-level loop *)

Section TopLevelLoop.
Context {E : Type} {rt : GoRuntime} {X : Externals E} {W32 : Win32 E}.

Lemma neverPanics_ret {W A} (a : A) : neverPanics (ret (W := W) a).
Proof. intros w v. discriminate. Qed.

Lemma neverPanics_bind {W A B} (m : Go W A) (k : A -> Go W B) :
  neverPanics m -> (forall a, neverPanics (k a)) -> neverPanics (bind m k).
Proof.
  intros Hm Hk w v. unfold bind. specialize (Hm w).
  destruct (m w) as [[a | v' | |] w1]; cbn in *; try discriminate.
  - apply Hk.
  - exfalso. exact (Hm v' eq_refl).
Qed.

Lemma neverPanics_defer {W A} (d : Go W unit) (body : Go W A) :
  neverPanics d -> neverPanics body -> neverPanics (defer d body).
Proof.
  intros Hd Hb w v. unfold defer. specialize (Hb w).
  destruct (body w) as [[a | v' | |] w1]; cbn in *; try discriminate.
  - specialize (Hd w1). destruct (d w1) as [[[] | v'' | |] w2]; cbn in *; try discriminate.
    exfalso. exact (Hd v'' eq_refl).
  - exfalso. exact (Hb v' eq_refl).
Qed.

Lemma neverPanics_liftE {A} (m : Go E A) : neverPanics m -> neverPanics (liftE m).
Proof.
  intros Hm s v. unfold liftE. specialize (Hm (ext s) v). destruct (m (ext s)). exact Hm.
Qed.

Lemma neverPanics_liftS {A} (m : Go (Sys E) A) : neverPanics m -> neverPanics (liftS m).
Proof.
  intros Hm w v. unfold liftS. specialize (Hm (sys w) v). destruct (m (sys w)). exact Hm.
Qed.

Lemma neverPanics_external {A} (m : Go E A) : neverPanics m -> neverPanics (external m).
Proof. intros Hm. apply neverPanics_liftS, neverPanics_liftE, Hm. Qed.

Lemma neverPanics_emit (ev : event) : neverPanics (emit (E := E) ev).
Proof. intros w v. discriminate. Qed.

Lemma neverPanics_GetMessage : neverPanics (GetMessage (E := E)).
Proof.
  intros w v. unfold GetMessage, bind, PeekMessage_remove.
  destruct (queue (sys w)); [destruct (quit (sys w)) |]; discriminate.
Qed.

Section QuietCalls.
Hypothesis Hquiet : loopCallsNeverPanic.

Lemma neverPanics_runHandlers (hs : list Handler) (msg : MSG) : neverPanics (runHandlers hs msg).
Proof.
  destruct Hquiet as (Hpre & _).
  revert msg. induction hs as [| h hs IH]; intros msg; cbn.
  - apply neverPanics_ret.
  - apply neverPanics_bind; [apply neverPanics_external; intros e v; apply Hpre |].
    intros r. apply neverPanics_bind; [apply neverPanics_emit |]. intros _.
    destruct (fst r); [apply neverPanics_ret | apply IH].
Qed.

Lemma neverPanics_runPreTranslateHandler (msg : MSG) : neverPanics (runPreTranslateHandler msg).
Proof.
  pose proof Hquiet as (Hpre & _).
  unfold runPreTranslateHandler.
  apply neverPanics_bind; [intros w v; discriminate | intros app].
  apply neverPanics_bind; [apply neverPanics_runHandlers | intros r].
  destruct (fst r); [apply neverPanics_ret |].
  apply neverPanics_bind; [intros w v; discriminate | intros perWindow].
  apply neverPanics_bind; [apply neverPanics_runHandlers | intros r2].
  destruct (fst r2); [apply neverPanics_ret |].
  apply neverPanics_bind; [intros w v; discriminate | intros [win |]]; [| apply neverPanics_ret].
  destruct (asPreTranslateHandler win) as [h |]; [| apply neverPanics_ret].
  apply neverPanics_bind; [apply neverPanics_external; intros e v; apply Hpre | intros r'].
  apply neverPanics_bind; [apply neverPanics_emit | intros _; apply neverPanics_ret].
Qed.

Lemma neverPanics_mainLoopBody (msg : MSG) : neverPanics (mainLoopBody msg).
Proof.
  pose proof Hquiet as (_ & Htr & Hdi & Hpd & _).
  unfold mainLoopBody.
  apply neverPanics_bind; [apply neverPanics_runPreTranslateHandler | intros r].
  destruct (fst r); [apply neverPanics_ret |].
  apply neverPanics_bind; [apply neverPanics_emit | intros _].
  apply neverPanics_bind; [apply neverPanics_liftS; intros s v; apply Htr | intros _].
  apply neverPanics_bind; [apply neverPanics_emit | intros _].
  apply neverPanics_bind; [| intros _].
  { unfold dispatchMessage. apply neverPanics_bind; [intros w v; discriminate | intros app].
    destruct (negb (msgWindow app =? 0) && (HWnd (snd r) =? msgWindow app)).
    - apply neverPanics_bind; [apply appMsgWndProc_neverPanics | intros _; apply neverPanics_ret].
    - apply neverPanics_liftS. intros s v. apply Hdi. }
  unfold runPostDispatchHandler.
  apply neverPanics_bind; [intros w v; discriminate | intros [win |]]; [| apply neverPanics_ret].
  destruct (asPostDispatchHandler win) as [h |]; [| apply neverPanics_ret].
  apply neverPanics_bind; [apply neverPanics_emit | intros _].
  apply neverPanics_liftS. intros s v. apply Hpd.
Qed.

Lemma neverPanics_messageLoop (fuel : nat) : neverPanics (messageLoop fuel).
Proof.
  induction fuel as [| n IH]; cbn.
  - intros w v. discriminate.
  - apply neverPanics_bind; [apply neverPanics_GetMessage | intros r].
    destruct (fst r =? 0); [apply neverPanics_ret |].
    apply neverPanics_bind; [apply neverPanics_mainLoopBody | intros _; exact IH].
Qed.

End QuietCalls.

Lemma runMainMessageLoop_active (fuel : nat) (w : World E) :
  activeMessageLoops (appSingleton (sys w)) <> 0 ->
  runMainMessageLoop fuel w = (Panic nestedTopLevelLoop, w).
Proof.
  intros Hne. unfold runMainMessageLoop, bind, getApp. cbn.
  destruct (Z.eqb_spec (activeMessageLoops (appSingleton (sys w))) 0); [contradiction | reflexivity].
Qed.

Lemma runMainMessageLoop_idle (fuel : nat) (w : World E) :
  activeMessageLoops (appSingleton (sys w)) = 0 ->
  runMainMessageLoop fuel w = defer leaveLoop (messageLoop fuel) (snd (enterLoop w)).
Proof.
  intros Hz. unfold runMainMessageLoop. unfold bind at 1, getApp.
  destruct (Z.eqb_spec (activeMessageLoops (appSingleton (sys w))) 0) as [_ | Hne];
    [reflexivity | contradiction].
Qed.

(** C8, as the code has it.  [Run] called on another thread than the UI
    thread panics in [AssertUIThread], whatever the counter of active message
    loops.  Called on the UI thread with the counter not at zero, it panics
    with the nesting fault at entry, before the counter or anything else is
    touched; the outcome is a panic and not a returned error, the result
    being the exit code alone.  With the counter at zero the loop is entered,
    and a panic that comes out of the loop goes out of [Run] once the deferred
    decrement has run.  So when the calls made from the loop do not panic,
    [runMainMessageLoop] panics exactly when the counter is not zero at
    entry, and so does [Run] on the UI thread.  Once a top-level loop has
    been entered, entering another one panics. *)
Theorem Run_panics_iff_loop_active (tid : Z) (fuel : nat) (w : World E) :
  let active := activeMessageLoops (appSingleton (sys w)) in
  (IsUIThread tid (appSingleton (sys w)) = false ->
     Run tid fuel w = (Panic notTheUIThread, w)) /\
  (IsUIThread tid (appSingleton (sys w)) = true ->
     (active <> 0 -> Run tid fuel w = (Panic nestedTopLevelLoop, w)) /\
     (active = 0 ->
        forall v w', messageLoop fuel (snd (enterLoop w)) = (Panic v, w') ->
                     Run tid fuel w = (Panic v, snd (leaveLoop w'))) /\
     (loopCallsNeverPanic ->
        ((exists v, fst (Run tid fuel w) = Panic v) <-> active <> 0))) /\
  (loopCallsNeverPanic ->
     ((exists v, fst (runMainMessageLoop fuel w) = Panic v) <-> active <> 0)) /\
  (active = 0 ->
     forall fuel',
       runMainMessageLoop fuel' (snd (enterLoop w))
         = (Panic nestedTopLevelLoop, snd (enterLoop w)) /\
       (IsUIThread tid (appSingleton (sys w)) = true ->
        Run tid fuel' (snd (enterLoop w)) = (Panic nestedTopLevelLoop, snd (enterLoop w)))).
Proof.
  intros active. subst active.
  assert (Hiff : loopCallsNeverPanic ->
                 ((exists v, fst (runMainMessageLoop fuel w) = Panic v) <->
                  activeMessageLoops (appSingleton (sys w)) <> 0)).
  { intros Hquiet. split.
    - intros [v Hv] Hz. rewrite runMainMessageLoop_idle in Hv by exact Hz.
      revert Hv. apply neverPanics_defer.
      + intros w0 v0. discriminate.
      + apply neverPanics_messageLoop, Hquiet.
    - intros Hne. rewrite runMainMessageLoop_active by exact Hne. eauto. }
  assert (Hrun : forall fuel0 (w0 : World E),
            IsUIThread tid (appSingleton (sys w0)) = true ->
            Run tid fuel0 w0 =
              (exitCode <- runMainMessageLoop fuel0 ;;
               external waitGroup_Wait ;;; ret exitCode) w0).
  { intros fuel0 w0 Hui. unfold Run, bind at 1, AssertUIThread, bind at 1, getApp. cbn.
    rewrite Hui. reflexivity. }
  assert (Hnested : forall fuel0 (w0 : World E),
            IsUIThread tid (appSingleton (sys w0)) = true ->
            activeMessageLoops (appSingleton (sys w0)) <> 0 ->
            Run tid fuel0 w0 = (Panic nestedTopLevelLoop, w0)).
  { intros fuel0 w0 Hui Hne. rewrite Hrun by exact Hui. unfold bind at 1.
    rewrite runMainMessageLoop_active by exact Hne. reflexivity. }
  assert (Hentered : activeMessageLoops (appSingleton (sys w)) = 0 ->
            activeMessageLoops (appSingleton (sys (snd (enterLoop w)))) <> 0 /\
            uiThreadID (appSingleton (sys (snd (enterLoop w))))
              = uiThreadID (appSingleton (sys w))).
  { intros Hz. cbn. destruct (appSingleton (sys w)). cbn in *. subst.
    split; [discriminate | reflexivity]. }
  split; [| split; [| split]].
  - intros Hui. unfold Run, bind at 1, AssertUIThread, bind at 1, getApp. cbn.
    rewrite Hui. reflexivity.
  - intros Hui. split; [| split].
    + apply Hnested. exact Hui.
    + intros Hz v w' Hloop. rewrite Hrun by exact Hui. unfold bind at 1.
      rewrite runMainMessageLoop_idle by exact Hz. unfold defer. rewrite Hloop.
      reflexivity.
    + intros Hquiet. split.
      * intros [v Hv]. apply (Hiff Hquiet). rewrite Hrun in Hv by exact Hui.
        unfold bind at 1 in Hv.
        destruct (runMainMessageLoop fuel w) as [[code | v' | |] w1]; cbn in *;
          try discriminate.
        -- exfalso. revert Hv.
           apply (neverPanics_bind (external waitGroup_Wait) (fun _ => ret code)).
           ++ apply neverPanics_external. intros e v0. apply Hquiet.
           ++ intros _. apply neverPanics_ret.
        -- eauto.
      * intros Hne. rewrite Hnested by assumption. eauto.
  - exact Hiff.
  - intros Hz fuel'. destruct (Hentered Hz) as [Hne Htid]. split.
    + apply runMainMessageLoop_active. exact Hne.
    + intros Hui. apply Hnested; [| exact Hne].
      unfold IsUIThread in *. rewrite Htid. exact Hui.
Qed.

End TopLevelLoop.

(** ** The modal loop *)

Section ModalLoop.
Context {E : Type} {rt : GoRuntime} {X : Externals E} {W32 : Win32 E}.


Lemma wrapInt_valid (x : Z) : validInt (wrapInt x).
Proof.
  unfold validInt, wrapInt.
  pose proof (Z.mod_pos_bound (x + 2 ^ 63) (2 ^ 64) ltac:(lia)). lia.
Qed.

(** Incrementing and then decrementing an [int] gives the [int] back, also
    at the upper end of its range. *)
Lemma wrapInt_succ_pred (x : Z) : validInt x -> wrapInt (wrapInt (x + 1) - 1) = x.
Proof.
  unfold validInt, wrapInt. intros Hx.
  replace (((x + 1 + 2 ^ 63) mod 2 ^ 64 - 2 ^ 63 - 1 + 2 ^ 63))
    with ((x + 1 + 2 ^ 63) mod 2 ^ 64 - 1) by lia.
  rewrite Zminus_mod_idemp_l.
  replace (x + 1 + 2 ^ 63 - 1) with (x + 2 ^ 63) by lia.
  rewrite Z.mod_small by lia. lia.
Qed.

Lemma keeps_ret {A} (a : A) : keeps (ret (W := World E) a).
Proof. intros w r w' _ [= <- <-] _. split; [reflexivity | lia]. Qed.

Lemma keeps_pure {A} (m : Go (World E) A) :
  (forall w, depth (snd (m w)) = depth w /\ disposals (trace (snd (m w))) = disposals (trace w)) ->
  keeps m.
Proof.
  intros Hm w r w' _ Hrun _. destruct (Hm w) as [Hd Hn]. rewrite Hrun in *. cbn in *.
  split; [exact Hd | lia].
Qed.

Lemma keeps_bind {A B} (m : Go (World E) A) (k : A -> Go (World E) B) :
  keeps m -> (forall a, keeps (k a)) -> keeps (bind m k).
Proof.
  intros Hm Hk w r w' Hv. unfold bind.
  destruct (m w) as [[a | v | |] w1] eqn:Hmw.
  - intros Hrun Hex. destruct (Hm w _ _ Hv Hmw eq_refl) as [Hd1 Hn1].
    destruct (Hk a w1 r w') as [Hd2 Hn2]; [rewrite Hd1; exact Hv | exact Hrun | exact Hex |].
    split; [congruence | lia].
  - intros [= <- <-] _. exact (Hm w _ _ Hv Hmw eq_refl).
  - intros [= <- <-]. discriminate.
  - intros [= <- <-]. discriminate.
Qed.

Lemma moves_defer {A} (f1 f2 : Z -> Z) (dn1 dn2 : nat) (d : Go (World E) unit)
    (body : Go (World E) A) :
  (forall z, validInt z -> validInt (f1 z)) ->
  moves f1 dn1 body -> moves f2 dn2 d ->
  moves (fun z => f2 (f1 z)) (dn1 + dn2) (defer d body).
Proof.
  intros Hf1 Hb Hd w r w' Hv. unfold defer.
  destruct (body w) as [[a | v | |] w1] eqn:Hbw.
  - destruct (Hb w _ _ Hv Hbw eq_refl) as [Hz1 Hn1].
    assert (Hv1 : validInt (depth w1)) by (rewrite Hz1; apply Hf1, Hv).
    destruct (d w1) as [[[] | v' | |] w2] eqn:Hdw; intros [= <- <-]; try discriminate;
      intros _; destruct (Hd w1 _ _ Hv1 Hdw eq_refl) as [Hz2 Hn2];
      (split; [congruence | lia]).
  - destruct (Hb w _ _ Hv Hbw eq_refl) as [Hz1 Hn1].
    assert (Hv1 : validInt (depth w1)) by (rewrite Hz1; apply Hf1, Hv).
    destruct (d w1) as [[[] | v' | |] w2] eqn:Hdw; intros [= <- <-]; try discriminate;
      intros _; destruct (Hd w1 _ _ Hv1 Hdw eq_refl) as [Hz2 Hn2];
      (split; [congruence | lia]).
  - intros [= <- <-]. discriminate.
  - intros [= <- <-]. discriminate.
Qed.

Lemma keeps_defer {A} (d : Go (World E) unit) (body : Go (World E) A) :
  keeps body -> keeps d -> keeps (defer d body).
Proof. intros Hb Hd. apply (moves_defer (fun z => z) (fun z => z) 0 0); auto. Qed.

Lemma keeps_liftS {A} (m : Go (Sys E) A) : balanced m -> keeps (liftS m).
Proof.
  intros Hm w r w' Hv. unfold liftS. destruct (m (sys w)) as [r0 s'] eqn:Hms.
  intros [= <- <-] Hex. unfold depth. cbn. rewrite (Hm _ _ _ Hv Hms Hex). split; [reflexivity | lia].
Qed.

Lemma keeps_emit (ev : event) : ev <> EvDispose -> keeps (emit (E := E) ev).
Proof.
  intros Hev. apply keeps_pure. intros w. unfold depth. cbn. rewrite disposals_app.
  split; [reflexivity |]. destruct ev; cbn; try lia. contradiction.
Qed.

Lemma keeps_popMessage : keeps (popMessage (E := E)).
Proof.
  apply keeps_pure. intros w. unfold popMessage, bind, PeekMessage_remove, depth.
  destruct (queue (sys w)) as [| m q]; [destruct (quit (sys w)) |]; cbn.
  - rewrite ?disposals_app. cbn. split; (reflexivity || lia).
  - split; reflexivity.
  - destruct (Message m =? WM_QUIT); cbn; rewrite ?disposals_app; cbn; split; (reflexivity || lia).
Qed.

Lemma keeps_getApp : keeps (getApp (E := E)).
Proof. apply keeps_pure. intros w. split; reflexivity. Qed.

Lemma keeps_outOfFuel {A} : keeps (outOfFuel (E := E) (A := A)).
Proof. intros w r w' _ [= <- <-]. discriminate. Qed.

Lemma keeps_dispatchMessage (msg : MSG) :
  balanced (DispatchMessage msg) -> keeps (dispatchMessage msg).
Proof.
  intros Hdi. unfold dispatchMessage.
  apply keeps_bind; [apply keeps_getApp | intros app].
  destruct (negb (msgWindow app =? 0) && (HWnd msg =? msgWindow app)); [| apply keeps_liftS, Hdi].
  apply keeps_bind; [| intros _; apply keeps_ret].
  apply keeps_pure. intros w.
  pose proof (dd_appMsgWndProc (uiThreadID app) (HWnd msg) (Message msg) (WParam msg)
                (LParam msg) w) as Hdd.
  unfold depthAndDisposals, depth in *. split; congruence.
Qed.

Section BalancedCalls.
Variable modal : Modal E.
Hypothesis Hmodal : balancedModal modal.
Hypothesis Hwin : balancedWin32.

Lemma keeps_modalLoop (fuel : nat) : keeps (modalLoop modal fuel).
Proof.
  destruct Hmodal as (_ & Hpre & _ & _ & Hrunning & Hpost).
  destruct Hwin as (Htr & Hdi & Hfilter & _ & Hwait).
  induction fuel as [| n IH]; cbn [modalLoop]; [apply keeps_outOfFuel |].
  apply keeps_bind; [apply keeps_liftS, Hrunning | intros running].
  destruct running; cbn [negb]; [| apply keeps_ret].
  apply keeps_bind; [apply keeps_popMessage | intros [[msg quit] |]].
  - destruct quit; [apply keeps_ret |].
    apply keeps_bind; [apply keeps_getApp | intros app].
    apply keeps_bind.
    { destruct (runMsgFilters app); [apply keeps_liftS, Hfilter | apply keeps_ret]. }
    intros filtered. destruct filtered; [exact IH |].
    apply keeps_bind; [apply keeps_liftS, Hpre | intros h].
    destruct (fst h); [exact IH |].
    apply keeps_bind; [apply keeps_emit; discriminate | intros _].
    apply keeps_bind; [apply keeps_liftS, Htr | intros _].
    apply keeps_bind; [apply keeps_emit; discriminate | intros _].
    apply keeps_bind; [apply keeps_dispatchMessage, Hdi | intros _].
    apply keeps_bind; [| intros _; exact IH].
    destruct (modal_PostDispatch modal) as [pd |] eqn:Hpd;
      [apply keeps_liftS, (Hpost pd eq_refl) | apply keeps_ret].
  - apply keeps_bind; [apply keeps_liftS, Hrunning | intros running'].
    apply keeps_bind; [| intros _; exact IH].
    destruct running'; [apply keeps_liftS, Hwait | apply keeps_ret].
Qed.

Lemma keeps_modalBody (fuel : nat) : keeps (modalBody modal fuel).
Proof.
  destruct Hmodal as (_ & _ & Henter & _).
  unfold modalBody.
  apply keeps_bind; [apply keeps_emit; discriminate | intros _].
  apply keeps_bind; [apply keeps_liftS, Henter | intros _].
  apply keeps_modalLoop.
Qed.

(** The deferred [modal.Dispose()] disposes once and keeps the depth. *)
Lemma moves_Dispose : moves (fun d => d) 1 (emit (E := E) EvDispose ;;; liftS (Dispose modal)).
Proof.
  destruct Hmodal as (Hdispose & _).
  intros w r w' Hv. unfold bind, emit. cbn.
  set (w1 := mkWorld (sys w) (trace w ++ [EvDispose])).
  intros Hrun Hex.
  destruct (keeps_liftS (Dispose modal) Hdispose w1 r w' Hv Hrun Hex) as [Hd Hn].
  subst w1. unfold depth in *. cbn in *. rewrite disposals_app in Hn. cbn in Hn.
  split; [exact Hd | lia].
Qed.

Lemma moves_leaveLoop : moves (fun d => wrapInt (d - 1)) 0 (leaveLoop (E := E)).
Proof.
  intros w r w' _ [= <- <-] _. unfold depth. cbn. destruct (appSingleton (sys w)). cbn.
  split; [reflexivity | lia].
Qed.

(** The part of [RunModal] after the counter was incremented. *)
Lemma moves_RunModal_entered (fuel : nat) :
  moves (fun d => wrapInt (d - 1)) 1
    (defer leaveLoop
       (defer (emit EvDispose ;;; liftS (Dispose modal))
          (owner <- liftS (OwnerWindow modal) ;;
           match owner with
           | Some ohwnd =>
               emit (EvEnableWindow ohwnd false) ;;;
               wasDisabled <- liftS (EnableWindow ohwnd false) ;;
               if negb wasDisabled then
                 defer (emit (EvEnableWindow ohwnd true) ;;;
                        liftS (EnableWindow ohwnd true) ;;; ret tt)
                   (modalBody modal fuel)
               else modalBody modal fuel
           | None => modalBody modal fuel
           end))).
Proof.
  pose proof Hmodal as (_ & _ & _ & Howner & _).
  pose proof Hwin as (_ & _ & _ & Henable & _).
  apply (moves_defer (fun d => d) (fun d => wrapInt (d - 1)) 1 0);
    [auto | | apply moves_leaveLoop].
  apply (moves_defer (fun d => d) (fun d => d) 0 1); [auto | | apply moves_Dispose].
  apply keeps_bind; [apply keeps_liftS, Howner | intros [ohwnd |]]; [| apply keeps_modalBody].
  apply keeps_bind; [apply keeps_emit; discriminate | intros _].
  apply keeps_bind; [apply keeps_liftS, Henable | intros wasDisabled].
  destruct wasDisabled; cbn [negb]; [apply keeps_modalBody |].
  apply keeps_defer; [apply keeps_modalBody |].
  apply keeps_bind; [apply keeps_emit; discriminate | intros _].
  apply keeps_bind; [apply keeps_liftS, Henable | intros _; apply keeps_ret].
Qed.

(** What an exit of [RunModal] leaves behind, on the UI thread. *)
Lemma RunModal_exit (tid : Z) (fuel : nat) (w w' : World E) (r : result unit) :
  IsUIThread tid (appSingleton (sys w)) = true ->
  validInt (depth w) ->
  RunModal tid modal fuel w = (r, w') ->
  exits r = true ->
  depth w' = depth w /\ disposals (trace w') = S (disposals (trace w)).
Proof.
  intros Hui Hv Hrun Hex. unfold RunModal in Hrun.
  unfold bind at 1, AssertUIThread, bind at 1, getApp in Hrun. cbv beta iota in Hrun.
  rewrite Hui in Hrun. unfold ret at 1 in Hrun. cbv beta iota in Hrun.
  unfold bind at 1 in Hrun.
  assert (Henter : enterLoop w = (Ret tt, snd (enterLoop w))) by reflexivity.
  rewrite Henter in Hrun. clear Henter.
  assert (Hv1 : validInt (depth (snd (enterLoop w)))).
  { unfold depth. cbn. destruct (appSingleton (sys w)). cbn. apply wrapInt_valid. }
  destruct (moves_RunModal_entered fuel _ _ _ Hv1 Hrun Hex) as [Hd Hn].
  split; [| rewrite Hn; cbn; lia].
  rewrite Hd. unfold depth in *. cbn. destruct (appSingleton (sys w)). cbn in *.
  apply wrapInt_succ_pred, Hv.
Qed.

(** A nested [RunModal], seen as a call into the environment, is balanced on
    any thread: the assumption on the environment is one that modal loops
    opened by the environment meet themselves. *)
Lemma RunModal_balanced (tid : Z) (fuel : nat) : balanced (untraced (RunModal tid modal fuel)).
Proof.
  intros s r s' Hv. unfold untraced.
  destruct (RunModal tid modal fuel (mkWorld s [])) as [r0 w'] eqn:Hrun.
  intros [= <- <-] Hex.
  destruct (IsUIThread tid (appSingleton s)) eqn:Hui.
  - destruct (RunModal_exit tid fuel (mkWorld s []) w' r0 Hui Hv Hrun Hex) as [Hd _]. exact Hd.
  - unfold RunModal in Hrun.
    unfold bind at 1, AssertUIThread, bind at 1, getApp in Hrun. cbn in Hrun.
    rewrite Hui in Hrun. cbn in Hrun. injection Hrun as _ <-. reflexivity.
Qed.

End BalancedCalls.

(** C5.  Let [RunModal] be called on the UI thread for [modal] while the
    nesting depth is [k] (any value of the counter), in an environment whose
    calls are balanced (a call that comes back has left every loop it
    entered).  On every exit of [RunModal], whether it returns (the modal
    stopped running, or the quit message was met) or a panic propagates out
    of it, the nesting depth is [k] again and [RunModal] has called
    [modal.Dispose()] exactly once. *)
Theorem RunModal_restores_depth_and_disposes_once
    (tid : Z) (modal : Modal E) (fuel : nat) (w w' : World E) (r : result unit) :
  IsUIThread tid (appSingleton (sys w)) = true ->
  validInt (depth w) ->
  balancedModal modal ->
  balancedWin32 ->
  RunModal tid modal fuel w = (r, w') ->
  exits r = true ->
  depth w' = depth w /\ disposals (trace w') = S (disposals (trace w)).
Proof.
  intros Hui Hv Hmodal Hwin Hrun Hex.
  exact (RunModal_exit modal Hmodal Hwin tid fuel w w' r Hui Hv Hrun Hex).
Qed.

End ModalLoop.

(** ** Layout results during and outside an interactive resize *)

Section LayoutHandOff.
Context {E : Type} {rt : GoRuntime} {X : Externals E} {W32 : Win32 E} {FX : FormExternals E}.

Lemma inWorld_external_returns {A} (m : Go E A) (fw : FormWorld E) :
  returns m ->
  exists (a : A) (e' : E),
    inWorld (external m) fw =
      (Ret a, mkFormWorld (fb fw) (performer fw)
                (mkWorld (set_ext e' (sys (world fw))) (trace (world fw)))).
Proof.
  intros Hm. destruct (Hm (ext (sys (world fw)))) as [a Ha].
  unfold inWorld, external, liftS, liftE.
  destruct (m (ext (sys (world fw)))) as [r e']. cbn in Ha. subst r.
  exists a, e'. reflexivity.
Qed.

(** Runs the next call into the environment, which returns. *)
Ltac run_external :=
  match goal with
  | |- context [inWorld (external ?m) ?fw] =>
      let a := fresh "a" in
      let e := fresh "e" in
      let Heq := fresh "Heq" in
      destruct (inWorld_external_returns m fw) as (a & e & Heq);
        [solve [auto] | rewrite Heq; clear Heq; cbv beta iota]
  end.

Ltac step_external :=
  unfold bind at 1;
  match goal with
  | |- context [inWorld (external ?m) ?fw] =>
      let a := fresh "a" in
      let e := fresh "e" in
      let Heq := fresh "Heq" in
      destruct (inWorld_external_returns m fw) as (a & e & Heq);
        [solve [auto] | rewrite Heq; clear Heq; cbv beta iota]
  end.

(** When the guard of [startLayout] lets the call through and the worker
    runs, [startLayout] hands the worker one request and returns true; up to
    the hand-over only the external state has changed. *)
Lemma startLayout_sends (cfs : list func) (fw : FormWorld E) :
  formCallsReturn ->
  performLayout (fb fw) = true ->
  inSizingLoop (fb fw) && negb (startingLayoutViaSizingLoop (fb fw)) = false ->
  lp_alive (performer fw) = true ->
  exists (cs : Size) (e : E),
    startLayout cfs fw = (publish (mkLayoutStartInfo cs cfs) ;;; ret true) (withExt e fw).
Proof.
  intros (Hset & Hinv & Hbounds & _) Hperf Hguard Halive.
  unfold startLayout. unfold bind at 1, getForm. cbv beta iota.
  rewrite Hperf, Hguard. cbn [negb orb].
  unfold bind at 1, getExt. cbv beta iota zeta.
  set (cs0 := clientSizeFromSizePixels _ _). set (min := MinSizeForSize _ _).
  destruct ((Width cs0 <? Width min) || (Height cs0 <? Height min)).
  - unfold bind at 1. unfold bind at 1, getExt. cbv beta iota.
    step_external. step_external. unfold ret at 1. cbv beta iota.
    step_external.
    unfold bind at 1, send_performLayout. cbn [performer]. rewrite Halive.
    exists (maxSize cs0 min), e1. reflexivity.
  - unfold bind at 1, ret at 1. cbv beta iota.
    step_external.
    unfold bind at 1, send_performLayout. cbn [performer]. rewrite Halive.
    exists cs0, e. reflexivity.
Qed.

(** Projections of the form world applied to a world given in full. *)
Ltac simpl_form :=
  cbn [fb performer world sys trace withExt
       set_startingLayoutViaSizingLoop set_proposedSize set_inSizingLoop
       fb_form fb_stopwatch performLayout proposedSize inSizingLoop
       startingLayoutViaSizingLoop hasLayout suspended
       lp_alive lp_sizing lp_stopwatch lp_offer].

Lemma stopwatchDo_returns (f : nat -> Go E unit) (sw : option nat) (fw : FormWorld E) :
  (forall n, returns (f n)) ->
  exists e : E, stopwatchDo f sw fw = (Ret tt, withExt e fw).
Proof.
  intros Hf. destruct sw as [n |]; cbn.
  - destruct (inWorld_external_returns (f n) fw (Hf n)) as ([] & e & Heq). eauto.
  - exists (ext (sys (world fw))). destruct fw as [f0 p [[] tr]]. reflexivity.
Qed.

(** In the sizing loop: the request goes to the worker, the owner thread
    takes the worker's result from the [layoutResults] channel and applies
    it before the handler goes on; nothing goes through the bridge. *)
Lemma onWindowPosChanged_sizing (wp : WINDOWPOS) (fw : FormWorld E) :
  formCallsReturn ->
  layoutReady fw wp ->
  inSizingLoop (fb fw) = true ->
  exists (fw' : FormWorld E) (cs : Size) (e : E),
    onWindowPosChanged wp fw = (Ret tt, fw') /\
    trace (world fw') =
      trace (world fw) ++ [EvApply (computeLayout cs e) (fb_stopwatch (fb fw))] /\
    appSingleton (sys (world fw')) = appSingleton (sys (world fw)) /\
    queue (sys (world fw')) = queue (sys (world fw)) /\
    lp_offer (performer fw') = None /\
    startingLayoutViaSizingLoop (fb fw') = false.
Proof.
  intros Hret (Hperf & Hlay & Hsusp & Hstart & Hnosize & Hshow & Halive & Hoffer & Hsync) Hsizing.
  pose proof Hret as (_ & _ & _ & HswStart & HswStop & Happly).
  unfold onWindowPosChanged. rewrite Hshow. cbn [Z.eqb negb].
  unfold bind at 1, ret at 1. cbv beta iota.
  unfold bind at 1, getForm. cbv beta iota.
  rewrite Hnosize, Hlay, Hsusp. cbn [Z.eqb negb orb].
  unfold bind at 1, modifyForm. cbv beta iota. rewrite Hsizing.
  unfold bind at 1. unfold bind at 1, modifyForm. cbv beta iota.
  match goal with
  | |- context [stopwatchDo stopwatch_Start ?sw ?fw1] =>
      destruct (stopwatchDo_returns stopwatch_Start sw fw1 HswStart) as (e1 & Heq1);
        rewrite Heq1; clear Heq1; cbv beta iota
  end.
  unfold bind at 1.
  match goal with
  | |- context [startLayout [] ?fw2] =>
      destruct (startLayout_sends [] fw2 Hret) as (cs & e2 & Heq2);
        [exact Hperf | cbn; rewrite Hsizing; reflexivity | exact Halive |];
        rewrite Heq2; clear Heq2
  end.
  simpl_form.
  unfold bind at 1, publish. simpl_form. rewrite Hsync, Hsizing.
  unfold ret at 1. cbv beta iota.
  unfold bind at 1, getForm. simpl_form. rewrite Hsizing.
  unfold bind at 1, modifyForm. cbv beta iota. simpl_form.
  unfold bind at 1, recv_layoutResults. simpl_form. cbv beta iota.
  unfold applyResults. unfold bind at 1. unfold bind at 1. unfold inWorld at 1, emit.
  simpl_form. cbv beta iota.
  run_external. simpl_form.
  match goal with
  | |- context [stopwatchDo stopwatch_Stop ?sw ?fw3] =>
      destruct (stopwatchDo_returns stopwatch_Stop sw fw3 HswStop) as (e4 & Heq4);
        rewrite Heq4; clear Heq4
  end.
  eexists. exists cs. eexists. split; [reflexivity |].
  cbn. repeat split.
Qed.

(** Outside the sizing loop: the request goes to the worker and the handler
    goes on without receiving or applying anything; the worker's result is
    stored in the bridge's map under the form and the layout wake-up is
    posted. *)
Lemma onWindowPosChanged_not_sizing (wp : WINDOWPOS) (fw : FormWorld E)
    (m : gmap nat formLayoutResult) :
  formCallsReturn ->
  layoutReady fw wp ->
  inSizingLoop (fb fw) = false ->
  layoutResultsByForm (appSingleton (sys (world fw))) = Some m ->
  exists (fw' : FormWorld E) (cs : Size) (e : E),
    onWindowPosChanged wp fw = (Ret tt, fw') /\
    trace (world fw') = trace (world fw) /\
    layoutResultsByForm (appSingleton (sys (world fw'))) =
      Some (<[fb_form (fb fw) :=
                mkFormLayoutResult (fb_form (fb fw)) (lp_stopwatch (performer fw))
                                   (mkLayoutResults (computeLayout cs e) [])]> m) /\
    queue (sys (world fw')) =
      queue (sys (world fw)) ++ [mkMSG (msgWindow (appSingleton (sys (world fw))))
                                       (syncLayoutMsg (appSingleton (sys (world fw)))) 0 0] /\
    lp_offer (performer fw') = None.
Proof.
  intros Hret (Hperf & Hlay & Hsusp & Hstart & Hnosize & Hshow & Halive & Hoffer & Hsync) Hsizing Hm.
  unfold onWindowPosChanged. rewrite Hshow. cbn [Z.eqb negb].
  unfold bind at 1, ret at 1. cbv beta iota.
  unfold bind at 1, getForm. cbv beta iota.
  rewrite Hnosize, Hlay, Hsusp. cbn [Z.eqb negb orb].
  unfold bind at 1, modifyForm. cbv beta iota. rewrite Hsizing.
  unfold bind at 1, ret at 1. cbv beta iota.
  unfold bind at 1.
  match goal with
  | |- context [startLayout [] ?fw2] =>
      destruct (startLayout_sends [] fw2 Hret) as (cs & e2 & Heq2);
        [exact Hperf | cbn; rewrite Hsizing; reflexivity | exact Halive |];
        rewrite Heq2; clear Heq2
  end.
  simpl_form.
  unfold bind at 1, publish. simpl_form. rewrite Hsync, Hsizing.
  match goal with
  | |- context [inWorld (synchronizeLayout ?r) ?fw3] =>
      destruct (synchronizeLayout_stores r (world fw3) m) as (w1 & Hw1 & Hm1 & Htr1 & Hq1);
        [simpl_form; destruct (sys (world fw)); exact Hm |];
        unfold inWorld at 1; rewrite Hw1; clear Hw1
  end.
  unfold ret at 1. cbv beta iota.
  unfold bind at 1, getForm. simpl_form. rewrite Hsizing.
  eexists. exists cs. eexists. split; [reflexivity |].
  simpl_form. rewrite Htr1, Hm1, Hq1. cbn. destruct (sys (world fw)). cbn in *.
  repeat split. exact Hoffer.
Qed.

(** C9.  Let [WM_WINDOWPOSCHANGED] announce a new size to a form that is
    ready for layout, in an environment whose calls return.  The handler
    starts one layout pass and returns.  If the owner thread is in the sizing
    loop, then before the handler goes on it has taken the worker's result
    from the [layoutResults] channel and applied it, and nothing went through
    the bridge; the receive waits as long as the worker offers nothing.  If
    the owner thread is not in the sizing loop, the handler neither receives
    nor applies anything: the result is stored in the bridge's map of layout
    results, under the form, and the layout wake-up is posted. *)
Theorem layout_result_delivery (wp : WINDOWPOS) (fw : FormWorld E)
    (m : gmap nat formLayoutResult) :
  formCallsReturn ->
  layoutReady fw wp ->
  layoutResultsByForm (appSingleton (sys (world fw))) = Some m ->
  (exists (fw' : FormWorld E) (cs : Size) (e : E),
     onWindowPosChanged wp fw = (Ret tt, fw') /\
     lp_offer (performer fw') = None /\
     if inSizingLoop (fb fw) then
       trace (world fw') =
         trace (world fw) ++ [EvApply (computeLayout cs e) (fb_stopwatch (fb fw))] /\
       layoutResultsByForm (appSingleton (sys (world fw'))) = Some m /\
       queue (sys (world fw')) = queue (sys (world fw))
     else
       trace (world fw') = trace (world fw) /\
       layoutResultsByForm (appSingleton (sys (world fw'))) =
         Some (<[fb_form (fb fw) :=
                   mkFormLayoutResult (fb_form (fb fw)) (lp_stopwatch (performer fw))
                                      (mkLayoutResults (computeLayout cs e) [])]> m) /\
       queue (sys (world fw')) =
         queue (sys (world fw)) ++ [mkMSG (msgWindow (appSingleton (sys (world fw))))
                                          (syncLayoutMsg (appSingleton (sys (world fw)))) 0 0]) /\
  (forall fw0 : FormWorld E,
     lp_offer (performer fw0) = None -> recv_layoutResults fw0 = (Block, fw0)).
Proof.
  intros Hret Hready Hm. split.
  - destruct (inSizingLoop (fb fw)) eqn:Hsizing.
    + destruct (onWindowPosChanged_sizing wp fw Hret Hready Hsizing)
        as (fw' & cs & e & Hrun & Htr & Happ & Hq & Hoffer & _).
      exists fw', cs, e. rewrite Happ. auto.
    + destruct (onWindowPosChanged_not_sizing wp fw m Hret Hready Hsizing Hm)
        as (fw' & cs & e & Hrun & Htr & Hm' & Hq & Hoffer).
      exists fw', cs, e. auto.
  - intros fw0 Hoffer. unfold recv_layoutResults. rewrite Hoffer. reflexivity.
Qed.

End LayoutHandOff.

(** ** The loop bound

    The loops take a bound on their iterations.  An outcome other than
    running out of fuel does not depend on the bound: with more fuel the
    loops do the same. *)

Section LoopBound.
Context {E : Type} {rt : GoRuntime} {X : Externals E} {W32 : Win32 E}.

Lemma refines_refl {W A} (m : Go W A) : refines m m.
Proof. intros w r w' Hrun _. exact Hrun. Qed.

Lemma refines_bind {W A B} (m : Go W A) (k1 k2 : A -> Go W B) :
  (forall a, refines (k1 a) (k2 a)) -> refines (bind m k1) (bind m k2).
Proof.
  intros Hk w r w'. unfold bind. destruct (m w) as [[a | v | |] w1]; auto.
  apply Hk.
Qed.

Lemma refines_bind_l {W A B} (m1 m2 : Go W A) (k : A -> Go W B) :
  refines m1 m2 -> refines (bind m1 k) (bind m2 k).
Proof.
  intros Hm w r w'. unfold bind. destruct (m1 w) as [[a | v | |] w1] eqn:Hm1.
  - rewrite (Hm w _ _ Hm1) by discriminate. auto.
  - rewrite (Hm w _ _ Hm1) by discriminate. auto.
  - rewrite (Hm w _ _ Hm1) by discriminate. auto.
  - intros [= <- <-] Hne. contradiction.
Qed.

Lemma refines_defer {W A} (d : Go W unit) (b1 b2 : Go W A) :
  refines b1 b2 -> refines (defer d b1) (defer d b2).
Proof.
  intros Hb w r w'. unfold defer.
  destruct (b1 w) as [[a | v | |] w1] eqn:Hb1.
  - rewrite (Hb w _ _ Hb1) by discriminate. auto.
  - rewrite (Hb w _ _ Hb1) by discriminate. auto.
  - rewrite (Hb w _ _ Hb1) by discriminate. auto.
  - intros [= <- <-] Hne. contradiction.
Qed.

Lemma refines_outOfFuel {A} (m : Go (World E) A) : refines outOfFuel m.
Proof. intros w r w' [= <- <-] Hne. contradiction. Qed.

Lemma messageLoop_fuel (n : nat) :
  forall n', (n <= n')%nat -> refines (messageLoop n) (messageLoop n').
Proof.
  induction n as [| n IH]; intros n' Hle; [apply refines_outOfFuel |].
  destruct n' as [| n']; [lia |]. cbn [messageLoop].
  apply refines_bind. intros r. destruct (fst r =? 0); [apply refines_refl |].
  apply refines_bind. intros _. apply IH. lia.
Qed.

Lemma Run_fuel (tid : Z) (n n' : nat) :
  (n <= n')%nat -> refines (Run tid n) (Run tid n').
Proof.
  intros Hle. unfold Run, runMainMessageLoop.
  apply refines_bind. intros _. apply refines_bind_l.
  apply refines_bind. intros app.
  destruct (negb (activeMessageLoops app =? 0)); [apply refines_refl |].
  apply refines_bind. intros _.
  apply refines_defer, messageLoop_fuel, Hle.
Qed.

Lemma modalLoop_fuel (modal : Modal E) (n : nat) :
  forall n', (n <= n')%nat -> refines (modalLoop modal n) (modalLoop modal n').
Proof.
  induction n as [| n IH]; intros n' Hle; [apply refines_outOfFuel |].
  destruct n' as [| n']; [lia |]. cbn [modalLoop].
  assert (Hrec : refines (modalLoop modal n) (modalLoop modal n')) by (apply IH; lia).
  apply refines_bind. intros running. destruct (negb running); [apply refines_refl |].
  apply refines_bind. intros [[msg quit] |].
  - destruct quit; [apply refines_refl |].
    apply refines_bind. intros app. apply refines_bind. intros filtered.
    destruct filtered; [exact Hrec |].
    apply refines_bind. intros h. destruct (fst h); [exact Hrec |].
    repeat (apply refines_bind; intros _). exact Hrec.
  - apply refines_bind. intros running'. apply refines_bind. intros _. exact Hrec.
Qed.

Lemma RunModal_fuel (tid : Z) (modal : Modal E) (n n' : nat) :
  (n <= n')%nat -> refines (RunModal tid modal n) (RunModal tid modal n').
Proof.
  intros Hle. unfold RunModal, modalBody.
  assert (Hbody : refines (emit EvEnterMode ;;; liftS (EnterMode modal) ;;; modalLoop modal n)
                          (emit EvEnterMode ;;; liftS (EnterMode modal) ;;; modalLoop modal n')).
  { repeat (apply refines_bind; intros _). apply modalLoop_fuel, Hle. }
  apply refines_bind. intros _. apply refines_bind. intros _.
  apply refines_defer, refines_defer.
  apply refines_bind. intros [ohwnd |]; [| exact Hbody].
  apply refines_bind. intros _. apply refines_bind. intros wasDisabled.
  destruct (negb wasDisabled); [apply refines_defer |]; exact Hbody.
Qed.

End LoopBound.

(** * Examples in the small environment *)

#[local] Existing Instances plainRuntime quietExternals quietWin32 quietFormExternals.

(** In the fresh process: [App()] panics, and the [InitApp] that follows
    returns the singleton whose message window was never created. *)
Lemma App_before_InitApp_example :
  init (appOnce (sys freshWorld)) = 0 /\
  mu (appOnce (sys freshWorld)) = false /\
  let w1 := mkWorld (set_appOnce (mkOnce 1 false) (sys freshWorld)) (trace freshWorld) in
  App freshWorld
    = (Panic (AString "walk.InitApp must be called first"), w1) /\
  appSingleton (sys w1) = appSingleton (sys freshWorld) /\
  InitApp 1 w1 = (Ret (refAppSingleton, None), w1).
Proof.
  split; [reflexivity | split; [reflexivity |]].
  apply (App_before_InitApp_marks_once freshWorld 1); reflexivity.
Defined.

(** The two submissions of [twoSubmissions] run in their order, once each, on
    the UI thread (thread 1), and nothing stays queued. *)
Lemma Synchronize_two_submissions_example :
  bridgeIdle readyWorld /\
  exists w : World unit,
    runSchedule twoSubmissions (readyWorld, O) = Some (w, O) /\
    syncFuncs (appSingleton (sys w)) = [] /\
    executed (trace w) = [UserFunc 1; UserFunc 2] /\
    runThreads (trace w) = [1; 1].
Proof.
  assert (Hidle : bridgeIdle readyWorld) by (split; reflexivity).
  split; [exact Hidle |].
  eexists. split; [vm_compute; reflexivity |].
  match goal with
  | |- syncFuncs (appSingleton (sys ?w)) = _ /\ _ =>
      assert (Hrun : runSchedule twoSubmissions (readyWorld, O) = Some (w, O))
        by (vm_compute; reflexivity);
      destruct (Synchronize_runs_each_func_once_in_order twoSubmissions readyWorld w O Hidle Hrun)
        as (_ & _ & Hq)
  end.
  destruct (Hq eq_refl eq_refl) as [Hfs Hex].
  split; [exact Hfs |]. split; [exact Hex | reflexivity].
Defined.

(** Three calls of [Exit]: from thread 7 with code 3, then from the UI thread
    with code 9, then from thread 7 with code 4.  The context is cancelled
    once, [postQuitMsg] with code 3 is queued, and its delivery posts the one
    quit message, with code 3. *)
Lemma Exit_three_calls_example :
  exiting (appSingleton (sys readyWorld)) = false /\
  ctx (appSingleton (sys readyWorld)) = Some false /\
  exists w1 : World unit,
    exitAll [(7, 3); (1, 9); (7, 4)] readyWorld = (Ret tt, w1) /\
    trace w1 = [EvCtxCancel] /\
    syncFuncs (appSingleton (sys w1)) = [Some (PostQuitMsg 3)] /\
    exists w2 : World unit,
      step DoDeliver (w1, O) = Some (w2, O) /\
      trace w2 = [EvCtxCancel; EvRun (PostQuitMsg 3) 1; EvPostQuitMessage 3].
Proof.
  split; [reflexivity | split; [reflexivity |]].
  destruct (Exit_only_first_call_counts readyWorld 7 3 [(1, 9); (7, 4)] false eq_refl eq_refl)
    as (Hall & (w1 & Hw1 & _ & _ & Hrest) & _).
  cbn in Hrest. destruct Hrest as (Htr & _ & Hfs & _ & Hdeliver).
  destruct (Hdeliver eq_refl eq_refl) as (w2 & Hstep & Htr2 & _).
  exists w1. split; [rewrite Hall; exact Hw1 |].
  split; [exact Htr |]. split; [exact Hfs |].
  exists w2. split; [exact Hstep | exact Htr2].
Defined.

(** [InitApp] in the fresh process does initialise: the message window
    exists and the first three application messages are allocated. *)
Lemma InitApp_fresh_example :
  fst (InitApp 1 freshWorld) = Ret (refAppSingleton, None) /\
  msgWindow (appSingleton (sys readyWorld)) = 0x500 /\
  syncFuncMsg (appSingleton (sys readyWorld)) = WM_APP /\
  syncLayoutMsg (appSingleton (sys readyWorld)) = WM_APP + 1 /\
  nextMsg (appSingleton (sys readyWorld)) = WM_APP + 3 /\
  init (appOnce (sys readyWorld)) = 1.
Proof. repeat split. Qed.

(** A func that panics behind the boundary: the UI thread blocks, a new
    goroutine panics with the redirected error. *)
Lemma boundary_example :
  let body : Go (World unit) Z := panic (AString "boom") in
  deferRecover HandlePanicFromNativeCallback 0 body readyWorld
    = (Block, mkWorld (sys readyWorld)
                [EvGoPanic (ARedirected (AString "boom") "goroutine 1 [running]")]).
Proof. reflexivity. Qed.

(** Three submissions, two of them for form 1: the map keeps the newer
    result for form 1 and the result for form 2. *)
Lemma synchronizeLayout_latest_example :
  layoutResultsByForm (appSingleton (sys readyWorld)) = Some ∅ /\
  exists (w' : World unit) (m' : gmap nat formLayoutResult),
    submitAll [resultA; resultB; resultA'] readyWorld = (Ret tt, w') /\
    layoutResultsByForm (appSingleton (sys w')) = Some m' /\
    m' !! 1%nat = Some resultA' /\
    m' !! 2%nat = Some resultB /\
    m' !! 3%nat = None /\
    NoDup (form <$> layoutBatch w').
Proof.
  split; [reflexivity |].
  destruct (synchronizeLayout_keeps_latest_per_form [resultA; resultB; resultA'] readyWorld eq_refl)
    as (w' & m' & Hrun & Hm' & Hlook & Hnodup & _).
  exists w', m'. split; [exact Hrun |]. split; [exact Hm' |].
  rewrite !Hlook. repeat split. exact Hnodup.
Defined.

(** The batch of the example above, drained: both results are applied, then
    the completion funcs are called. *)
Lemma runSyncLayout_example :
  layoutEvents
    (trace (snd (runSyncLayout (snd (submitAll [resultA; resultB; resultA'] readyWorld)))))
  = [EvApply [20%nat] None; EvApply [11%nat] None;
     EvCompletion (Some (UserFunc 200)); EvCompletion (Some (UserFunc 201));
     EvCompletion (Some (UserFunc 101))].
Proof. vm_compute. reflexivity. Qed.

(** Handler 31 is registered for window 5 only, no global handler exists and
    window 7 is no walk window; still the message for window 7 is offered to
    handler 31. *)
Lemma destination_hook_counterexample :
  ~ onlyDestinationHookRuns msgForWindow7 hookedWorld.
Proof.
  intros Hclaim.
  assert (Hcall : (31%nat, false) ∈
            hookCalls (drop (length (trace hookedWorld))
                            (trace (snd (runPreTranslateHandler msgForWindow7 hookedWorld)))))
    by (vm_compute; apply list_elem_of_here).
  destruct (Hclaim 31%nat false (<[5 := 31%nat]> ∅) eq_refl Hcall) as [Hg | [Ho | Hm]].
  - vm_compute in Hg. inversion Hg.
  - vm_compute in Ho. inversion Ho.
  - vm_compute in Hm. discriminate.
Qed.

(** The global handler 11, handler 31 registered for window 5, and window 7
    implementing handler 70: the message for window 7 is offered to the
    three of them in this order, the last being the handler of its
    destination. *)
Lemma runPreTranslateHandler_chain_example :
  hookCalls (trace (snd (runPreTranslateHandler (X := walkWindowExternals)
                           msgForWindow7 chainedWorld)))
    = [(11%nat, false); (31%nat, false); (70%nat, false)] /\
  destinationHandler (X := walkWindowExternals) msgForWindow7 chainedWorld = [70%nat].
Proof.
  destruct (runPreTranslateHandler_order (X := walkWindowExternals) msgForWindow7 chainedWorld)
    as (calls & tr & Htr & Hc & _ & Hsc & _ & Hdest).
  split.
  - rewrite Htr. cbn [chainedWorld trace app]. rewrite Hc. vm_compute in Hsc. exact Hsc.
  - rewrite Hdest; [reflexivity | | exists msgForWindow7; reflexivity].
    intros h msg msg' handled e e' Hcall. injection Hcall as _ <- <-. split; reflexivity.
Defined.

Lemma balanced_ret {A} (a : A) : balanced (ret (W := Sys unit) a).
Proof. intros s r s' _ [= <- <-] _. reflexivity. Qed.

Lemma balanced_panic {A} (v : any) : balanced (panic (W := Sys unit) (A := A) v).
Proof. intros s r s' _ [= <- <-] _. reflexivity. Qed.

Lemma quietWin32_balanced : balancedWin32.
Proof. repeat split; intros; apply balanced_ret. Qed.

Lemma simpleModal_balanced (running : bool) (pre : MSG -> Go (Sys unit) (bool * MSG)) :
  (forall msg, balanced (pre msg)) -> balancedModal (simpleModal running pre).
Proof.
  intros Hpre. repeat split; try apply balanced_ret; try exact Hpre.
  intros pd [=].
Qed.

(** A panic in the modal's hook propagates out of [RunModal]: the depth is 1
    as before, and the modal has been disposed once. *)
Lemma RunModal_fault_example :
  IsUIThread 1 (appSingleton (sys busyWorld)) = true /\
  validInt (depth busyWorld) /\
  balancedModal faultyModal /\
  balancedWin32 /\
  exists w' : World unit,
    RunModal 1 faultyModal 5 busyWorld = (Panic (AString "hook failed"), w') /\
    depth busyWorld = 1 /\
    depth w' = 1 /\
    disposals (trace w') = 1%nat.
Proof.
  assert (Hmodal : balancedModal faultyModal)
    by (apply simpleModal_balanced; intros msg; apply balanced_panic).
  assert (Hvalid : validInt (depth busyWorld)) by (unfold validInt; cbn; lia).
  split; [reflexivity |]. split; [exact Hvalid |].
  split; [exact Hmodal |]. split; [exact quietWin32_balanced |].
  eexists. split; [vm_compute; reflexivity |].
  match goal with
  | |- _ /\ depth ?w' = _ /\ _ =>
      destruct (RunModal_restores_depth_and_disposes_once 1 faultyModal 5 busyWorld w'
                  (Panic (AString "hook failed")) eq_refl Hvalid Hmodal quietWin32_balanced
                  ltac:(vm_compute; reflexivity) eq_refl) as [Hd Hn]
  end.
  split; [reflexivity |]. split; [rewrite Hd; reflexivity | exact Hn].
Defined.

(** The modal stops running: [RunModal] returns. *)
Lemma RunModal_stopped_example :
  let res := RunModal 1 (simpleModal false (fun msg => ret (false, msg))) 1 busyWorld in
  fst res = Ret tt /\ depth (snd res) = 1 /\ trace (snd res) = [EvEnterMode; EvDispose].
Proof. vm_compute. repeat split. Qed.

(** The quit message is met: [RunModal] returns, and the quit is posted
    again for the enclosing loop. *)
Lemma RunModal_quit_example :
  let w := mkWorld (set_quit (Some 3) (set_queue [] (sys busyWorld))) [] in
  let res := RunModal 1 (simpleModal true (fun msg => ret (false, msg))) 2 w in
  fst res = Ret tt /\ depth (snd res) = 1 /\
  trace (snd res) = [EvEnterMode; EvPostQuitMessage 3; EvDispose] /\
  quit (sys (snd res)) = Some 3.
Proof. vm_compute. repeat split. Qed.

Lemma quiet_loopCallsNeverPanic : loopCallsNeverPanic.
Proof. repeat split; intros; discriminate. Qed.

(** With a modal loop running (depth 1), [Run] on the UI thread panics at
    once, and on thread 2 it panics for the thread.  In the idle process a
    hook that panics takes [Run] down with it, the depth back at 0; with
    quiet hooks and a quit pending [Run] returns the exit code. *)
Lemma Run_nested_example :
  Run 1 3 busyWorld = (Panic nestedTopLevelLoop, busyWorld) /\
  Run 2 3 busyWorld = (Panic notTheUIThread, busyWorld) /\
  fst (Run (X := faultyHookExternals) 1 3 pendingWorld) = Panic (AString "hook failed") /\
  depth (snd (Run (X := faultyHookExternals) 1 3 pendingWorld)) = 0 /\
  ((exists v, fst (Run 1 3 (mkWorld (set_quit (Some 4) (sys readyWorld)) [])) = Panic v) <->
   activeMessageLoops (appSingleton (sys readyWorld)) <> 0) /\
  fst (Run 1 3 (mkWorld (set_quit (Some 4) (sys readyWorld)) [])) = Ret 4.
Proof.
  destruct (Run_panics_iff_loop_active 1 3 busyWorld) as (_ & Hui & _).
  destruct (Hui eq_refl) as (Hnested & _).
  destruct (Run_panics_iff_loop_active 2 3 busyWorld) as (Hoff & _).
  destruct (Run_panics_iff_loop_active (X := faultyHookExternals) 1 3 pendingWorld)
    as (_ & Hhook & _).
  destruct (Hhook eq_refl) as (_ & Hloop & _).
  pose proof (Hloop eq_refl (AString "hook failed")
                (snd (messageLoop (X := faultyHookExternals) 3 (snd (enterLoop pendingWorld))))
                eq_refl) as Hfault.
  destruct (Run_panics_iff_loop_active 1 3 (mkWorld (set_quit (Some 4) (sys readyWorld)) []))
    as (_ & Hquit & _).
  destruct (Hquit eq_refl) as (_ & _ & Hiff).
  split; [apply Hnested; discriminate |].
  split; [exact (Hoff eq_refl) |].
  split; [rewrite Hfault; reflexivity |].
  split; [rewrite Hfault; reflexivity |].
  split; [exact (Hiff quiet_loopCallsNeverPanic) | reflexivity].
Defined.

(** In the idle process (no message loop active) [Run] panics all the same:
    when it is called on thread 2, which is not the UI thread, and when a
    hook of the loop panics. *)
Lemma Run_idle_panic_counterexample :
  ~ panicsIffLoopActive 2 3 readyWorld /\
  ~ panicsIffLoopActive (X := faultyHookExternals) 1 3 pendingWorld.
Proof.
  split; intros [Hclaim _]; apply Hclaim; try reflexivity.
  - exists notTheUIThread. reflexivity.
  - exists (AString "hook failed"). reflexivity.
Qed.

(** A quit message whose [WParam] has all 64 bits set: [Run] returns -1. *)
Lemma Run_negative_exit_code_example :
  fst (Run 1 3 (mkWorld (set_queue [mkMSG 0 WM_QUIT (2 ^ 64 - 1) 0] (sys readyWorld)) []))
    = Ret (-1).
Proof. vm_compute. reflexivity. Qed.

(** [Exit 3] on the UI thread, then [Run]: the quit is posted directly and
    the loop ends with exit code 3, the nesting depth back at 0. *)
Lemma Exit_then_Run_example :
  let res := (Exit 1 3 ;;; Run 1 4) readyWorld in
  fst res = Ret 3 /\ depth (snd res) = 0 /\
  trace (snd res) = [EvCtxCancel; EvPostQuitMessage 3].
Proof. vm_compute. repeat split. Qed.

(** [Exit 3] from a goroutine on thread 2, then [Run] on the UI thread: the
    quit travels over the bridge.  The loop fetches the wake-up, dispatches
    it to the message window, whose procedure runs the func on thread 1; the
    next [GetMessage] meets the quit and [Run] returns 3. *)
Lemma Exit_off_thread_then_Run_example :
  let res := (Exit 2 3 ;;; Run 1 4) readyWorld in
  fst res = Ret 3 /\ depth (snd res) = 0 /\
  executed (trace (snd res)) = [PostQuitMsg 3] /\
  runThreads (trace (snd res)) = [1] /\
  syncFuncs (appSingleton (sys (snd res))) = [] /\
  queue (sys (snd res)) = [].
Proof. vm_compute. repeat split. Qed.

(** With nothing posted and no quit requested the top-level loop waits. *)
Lemma Run_waits_example : fst (Run 1 4 readyWorld) = Block.
Proof. reflexivity. Qed.

Lemma quiet_formCallsReturn : formCallsReturn.
Proof. repeat split; intros; intros w; exists tt; reflexivity. Qed.

Lemma sizingForm_ready : layoutReady sizingForm resized.
Proof. repeat split. Qed.

Lemma restingForm_ready : layoutReady restingForm resized.
Proof. repeat split. Qed.

(** A resize to 640x480 in the sizing loop: the handler returns with the
    result applied and nothing on the bridge; outside the sizing loop it
    returns with nothing applied, the result stored under form 1 and the
    layout wake-up posted. *)
Lemma layout_result_delivery_example :
  formCallsReturn /\
  layoutReady sizingForm resized /\
  layoutResultsByForm (appSingleton (sys (world sizingForm))) = Some ∅ /\
  (exists fw' : FormWorld unit,
     onWindowPosChanged resized sizingForm = (Ret tt, fw') /\
     trace (world fw') = [EvApply [640%nat; 480%nat] None] /\
     layoutResultsByForm (appSingleton (sys (world fw'))) = Some ∅ /\
     queue (sys (world fw')) = []) /\
  (exists fw' : FormWorld unit,
     onWindowPosChanged resized restingForm = (Ret tt, fw') /\
     trace (world fw') = [] /\
     layoutResultsByForm (appSingleton (sys (world fw'))) =
       Some (<[1%nat := mkFormLayoutResult 1 None (mkLayoutResults [640%nat; 480%nat] [])]> ∅) /\
     queue (sys (world fw')) = [mkMSG 0x500 (WM_APP + 1) 0 0]).
Proof.
  split; [exact quiet_formCallsReturn |]. split; [exact sizingForm_ready |].
  split; [reflexivity |]. split.
  - destruct (layout_result_delivery resized sizingForm ∅ quiet_formCallsReturn
                sizingForm_ready eq_refl) as ((fw' & cs & e & Hrun & _ & Htr & Hm & Hq) & _).
    exists fw'. split; [exact Hrun |].
    assert (Hfw : fw' = snd (onWindowPosChanged resized sizingForm)) by (rewrite Hrun; reflexivity).
    split; [| split; [exact Hm | exact Hq]].
    rewrite Hfw. vm_compute. reflexivity.
  - destruct (layout_result_delivery resized restingForm ∅ quiet_formCallsReturn
                restingForm_ready eq_refl) as ((fw' & cs & e & Hrun & _ & Htr & Hm & Hq) & _).
    exists fw'. split; [exact Hrun |].
    assert (Hfw : fw' = snd (onWindowPosChanged resized restingForm)) by (rewrite Hrun; reflexivity).
    split; [exact Htr |]. split; [| exact Hq].
    rewrite Hfw. vm_compute. reflexivity.
Defined.

(** [WM_ENTERSIZEMOVE] and [WM_EXITSIZEMOVE] keep the worker's view of the
    resize state equal to the form's. *)
Lemma sizing_protocol_example :
  let entered := snd (FormBase_WndProc 1 WM_ENTERSIZEMOVE 0 0 resized restingForm) in
  let left := snd (FormBase_WndProc 1 WM_EXITSIZEMOVE 0 0 resized entered) in
  inSizingLoop (fb entered) = true /\ lp_sizing (performer entered) = true /\
  inSizingLoop (fb left) = false /\ lp_sizing (performer left) = false.
Proof. vm_compute. repeat split. Qed.
